(** * jspm-cli, [src/build/index.ts]: the [build] orchestrator

    A shallow embedding of [build (input, opts)]: the normalisation of the
    inputs into rollup's name -> path object, the choice of the output
    extension, and the one-shot / watch execution with its reporting.

    JavaScript strings are modelled by [string]; the string primitives used
    by the source ([endsWith], [lastIndexOf], [substr]) only search for and cut
    at ASCII characters, so the byte view agrees with the UTF-16 view. *)

From Stdlib Require Import ZArith Ascii.
From stdpp Require Import gmap strings pretty list sorting.

Local Open Scope string_scope.
Local Open Scope Z_scope.

(** ** JavaScript string primitives used by the source *)

Module JSString.

(** [s.lastIndexOf(c)] for a one-character search string: the index of the
    last occurrence, or [-1]. *)
Fixpoint lastIndexOf_from (s : string) (c : ascii) (i found : Z) : Z :=
  match s with
  | EmptyString => found
  | String a s' =>
      lastIndexOf_from s' c (i + 1) (if Ascii.eqb a c then i else found)
  end.

Definition lastIndexOf (s : string) (c : ascii) : Z :=
  lastIndexOf_from s c 0 (-1).

Definition size (s : string) : Z := Z.of_nat (String.length s).

(** [s.substr(start, length)]: a negative [start] counts from the end, and a
    [length] that is negative or zero gives the empty string. *)
Definition substr (s : string) (start len : Z) : string :=
  let start' := if start <? 0 then Z.max (size s + start) 0
                else Z.min start (size s) in
  let len' := Z.min (Z.max len 0) (size s - start') in
  if len' <=? 0 then EmptyString
  else String.substring (Z.to_nat start') (Z.to_nat len') s.

(** [s.endsWith(suffix)]. *)
Definition endsWith (s suffix : string) : bool :=
  let n := String.length s in
  let k := String.length suffix in
  (k <=? n)%nat && String.eqb (String.substring (n - k) k s) suffix.

(** No character of [s] is [c]. *)
Fixpoint lacks (c : ascii) (s : string) : Prop :=
  match s with
  | EmptyString => True
  | String a s' => a ≠ c ∧ lacks c s'
  end.

(** The last character of [s], if any. *)
Fixpoint lastChar (s : string) : option ascii :=
  match s with
  | EmptyString => None
  | String a EmptyString => Some a
  | String _ s' => lastChar s'
  end.

Definition digitChars : list ascii :=
  ["0"; "1"; "2"; "3"; "4"; "5"; "6"; "7"; "8"; "9"]%char.

End JSString.

(** ** Plain objects and the [in] operator

    [inputObj = {}] is an ordinary object: [k in inputObj] is true for its own
    keys and also for every property inherited from [Object.prototype]. *)

Definition objectPrototypeKeys : list string :=
  [ "constructor"; "__defineGetter__"; "__defineSetter__"; "hasOwnProperty";
    "__lookupGetter__"; "__lookupSetter__"; "isPrototypeOf";
    "propertyIsEnumerable"; "toString"; "valueOf"; "__proto__";
    "toLocaleString" ].

Definition js_in (k : string) (o : gmap string string) : bool :=
  bool_decide (is_Some (o !! k)) || bool_decide (k ∈ objectPrototypeKeys).

(** ** Options and inputs *)

Inductive ModuleFormat := esm | cjs | amd | system | iife | umd.

Global Instance ModuleFormat_eq_dec : EqDecision ModuleFormat.
Proof. solve_decision. Defined.

(** [input: string[] | Record<string,string>] *)
Inductive BuildInput :=
| InputArray (modules : list string)
| InputRecord (entries : gmap string string).

(** ** The collision loop of the normaliser (lines 67-70)

    [[
      let inputName = basename;
      let i = 0;
      while (inputName in inputObj)
        inputName = basename + i++;
    ]]
    [whileInObj fuel basename inputObj inputName i] runs the loop from the
    state [(inputName, i)] for at most [fuel] iterations; [None] means the
    loop is still running when the fuel is spent.  The counter is printed
    in decimal, as JavaScript prints a small integer. *)

Fixpoint whileInObj (fuel : nat) (basename : string)
    (inputObj : gmap string string) (inputName : string) (i : N)
    : option string :=
  if js_in inputName inputObj then
    match fuel with
    | O => None
    | S fuel' =>
        whileInObj fuel' basename inputObj (basename +:+ pretty i) (i + 1)%N
    end
  else Some inputName.

(** More iterations than there are names visible through [in]. *)
Definition loopFuel (inputObj : gmap string string) : nat :=
  S (size inputObj + length objectPrototypeKeys)%nat.

Definition pickInputName (basename : string) (inputObj : gmap string string)
    : option string :=
  whileInObj (loopFuel inputObj) basename inputObj basename 0%N.

(** [BuildOptions].  An optional field is [None] when its key is absent;
    for [mjs] the source distinguishes the key's presence (['mjs' in opts])
    from its truthiness ([opts.mjs ? ...]): [Some b] is a present key whose
    value has truthiness [b]. *)
Record BuildOptions := {
  log : bool;
  projectPath : option string;
  removeDir : option bool;
  env : option string;
  sourcemap : option bool;
  mjs : option bool;
  out : option string;
  format : option ModuleFormat;
  external : option (list string);
  globals : option (gmap string string);
  banner : option string;
  showGraph : option bool;
  watch : option bool;
  target : option (bool + list string);
  inlineDeps : option bool
}.

(** [opts.format = 'esm'], an assignment to the caller's object. *)
Definition setFormat (f : ModuleFormat) (o : BuildOptions) : BuildOptions :=
  {| log := log o; projectPath := projectPath o; removeDir := removeDir o;
     env := env o; sourcemap := sourcemap o; mjs := mjs o; out := out o;
     format := Some f;
     external := external o; globals := globals o; banner := banner o;
     showGraph := showGraph o; watch := watch o; target := target o;
     inlineDeps := inlineDeps o |}.

Definition truthy (b : option bool) : bool := default false b.

Definition truthyString (s : option string) : bool :=
  match s with
  | Some s => negb (String.eqb s EmptyString)
  | None => false
  end.

(** String coercion of a possibly [undefined] string in a template. *)
Definition toStr (s : option string) : string := default "undefined" s.

(** ** What is handed to the collaborators *)

(** The argument of [jspmRollup (...)]. *)
Record JspmPluginOptions := {
  pl_projectPath : string;
  pl_inlineDeps : bool;
  pl_externals : option (list string);
  pl_env : option string
}.

(** The argument of [build.write] and the [output] field of the watcher's
    options.  A naming field that the source does not set is [None]. *)
Record OutputOptions := {
  oo_entryFileNames : option string;
  oo_chunkFileNames : option string;
  oo_exports : string;
  oo_dir : option string;
  oo_format : option ModuleFormat;
  oo_sourcemap : option bool;
  oo_indent : bool;
  oo_banner : option string
}.

(** [rollupOptions]; [onwarn] is the constant no-op and is not recorded. *)
Record RollupOptions := {
  ro_input : gmap string string;
  ro_dir : option string;
  ro_external : option (list string);
  ro_sourcemap : option bool;
  ro_plugins : list JspmPluginOptions;
  ro_output : option OutputOptions
}.

Definition setOutput (o : OutputOptions) (r : RollupOptions) : RollupOptions :=
  {| ro_input := ro_input r; ro_dir := ro_dir r; ro_external := ro_external r;
     ro_sourcemap := ro_sourcemap r; ro_plugins := ro_plugins r;
     ro_output := Some o |}.

(** One element of [output]: the chunk's own name, the chunks it imports
    and the keys of its [modules] object. *)
Record OutputChunk := {
  chunk_name : string;
  imports : list string;
  modules : list string
}.

(** The manifest read at a package boundary. *)
Record PackageConfig := { type : option string }.

(** ** Completions, events and the effect monad *)

Inductive JSError :=
| ReferenceError (identifier : string)
| ForeignError (payload : string).

(** How an evaluation ends: with a value, with an exception (a rejected
    promise for the asynchronous [build]), or never ([Pending]: an awaited
    promise that is never settled, or a loop that does not end). *)
Inductive Completion (A : Type) :=
| Normal (a : A)
| Throw (e : JSError)
| Pending.
Arguments Normal {A} a.
Arguments Throw {A} e.
Arguments Pending {A}.

Inductive Event :=
| Warn (msg : string)
| Info (msg : string)
| Ok (msg : string)
| ConsoleLog (line : string)
| GetPackageBoundarySync (dir : string)
| ReadPackageConfigSync (boundary : string)
| RollupWatch (o : RollupOptions)
| WatcherOn (event : string)
| RollupRollup (o : RollupOptions)
| RimrafSync (dir : option string)
| MkdirpSync (dir : option string)
| BuildWrite (o : OutputOptions).

(** A computation: the calls it made to the outside, in order, and how it
    ended. *)
Definition Eff (A : Type) : Type := list Event * Completion A.

Global Instance Eff_ret : MRet Eff := λ A a, ([], Normal a).

Global Instance Eff_bind : MBind Eff := λ A B f m,
  match m with
  | (t, Normal a) => let '(t', c) := f a in ((t ++ t')%list, c)
  | (t, Throw e) => (t, Throw e)
  | (t, Pending) => (t, Pending)
  end.

Definition emit (e : Event) : Eff unit := ([e], Normal tt).
Definition call {A} (e : Event) (r : Completion A) : Eff A := ([e], r).
Definition lift {A} (r : Completion A) : Eff A := ([], r).

(** The handle returned by [rollup.rollup]. *)
Record RollupBuild := {
  write : OutputOptions → Completion (list OutputChunk)
}.

(** ** The collaborators

    Everything [build] imports or reads from its surroundings: Node's
    [process] and [path], [@jspm/resolve]'s [utils], [rollup], [rimraf],
    [mkdirp], the styling helpers of [../utils/common], and the global
    scope in which the free identifier [name] of line 152 is looked up
    ([None]: no such global, as under Node). *)
Record World := {
  cwd : string;
  path_sep : string;
  path_basename : string → string;
  path_resolve : option string → Completion string;
  path_relative : string → string → string;
  getPackageBoundarySync : string → Completion (option string);
  readPackageConfigSync : string → Completion PackageConfig;
  rollup_watch : RollupOptions → Completion unit;
  rollup_rollup : RollupOptions → Completion RollupBuild;
  rimraf_sync : option string → Completion unit;
  mkdirp_sync : option string → Completion unit;
  global_name : option string;
  bold : string → string;
  highlight : string → string;
  replaceWinSep : string → string
}.

(** ** Stage 1: the input normaliser (lines 52-73) *)

Definition isEsm (opts : BuildOptions) : bool :=
  bool_decide (format opts = Some esm).

(** ['mjs' in opts === false] *)
Definition mjsAbsent (opts : BuildOptions) : bool :=
  match mjs opts with
  | None => true
  | Some _ => false
  end.

(** Lines 65-66: the base file name cut before its last dot. *)
Definition candidateName (w : World) (module : string) : string :=
  let basename := path_basename w module in
  JSString.substr basename 0 (JSString.lastIndexOf basename ".").

(** One iteration of [for (const module of input)] on the loop's variables
    [(ext, inputObj)]. *)
Definition forBody (w : World) (opts : BuildOptions)
    (st : string * gmap string string) (module : string)
    : option (string * gmap string string) :=
  let ext :=
    if isEsm opts && mjsAbsent opts && JSString.endsWith module ".mjs"
    then ".mjs" else st.1 in
  let basename := candidateName w module in
  inputName ← pickInputName basename st.2;
  Some (ext, <[inputName := module]> st.2).

Fixpoint forOf (w : World) (opts : BuildOptions) (input : list string)
    (st : string * gmap string string)
    : option (string * gmap string string) :=
  match input with
  | [] => Some st
  | module :: rest => st' ← forBody w opts st module; forOf w opts rest st'
  end.

(** [None] is the early [return] of line 59. *)
Definition normalizer (w : World) (opts : BuildOptions) (input : BuildInput)
    (ext : string) : Eff (option (string * gmap string string)) :=
  match input with
  | InputRecord inputObj => mret (Some (ext, inputObj))
  | InputArray [] =>
      emit (Warn "No inputs provided to build.");; mret None
  | InputArray modules =>
      match forOf w opts modules (ext, ∅) with
      | Some st => mret (Some st)
      | None => lift Pending
      end
  end.

(** ** Stage 2: the extension at the output's package boundary (lines 75-89) *)

Definition dquote : string := String "034"%char EmptyString.

Definition boundaryWarning (w : World) (boundary : string) : string :=
  let pjsonPath := path_relative w (cwd w) (boundary +:+ "/package.json") in
  let pjsonPath :=
    if String.prefix (".." +:+ path_sep w) pjsonPath then pjsonPath
    else "." +:+ path_sep w +:+ pjsonPath in
  "Output package scope at " +:+ highlight w pjsonPath +:+
  " does not have a " +:+
  bold w (dquote +:+ "type" +:+ dquote +:+ ": " +:+ dquote +:+ "module" +:+ dquote)
  +:+ " boundary, so outputting mjs.".

Definition resolver (w : World) (opts : BuildOptions) (ext : string)
    : Eff string :=
  if isEsm opts && mjsAbsent opts && negb (String.eqb ext ".mjs") then
    outdir ← lift (path_resolve w (out opts));
    boundary ← call (GetPackageBoundarySync (outdir +:+ "/"))
                    (getPackageBoundarySync w (outdir +:+ "/"));
    if truthyString boundary then
      pjson ← call (ReadPackageConfigSync (toStr boundary))
                   (readPackageConfigSync w (toStr boundary));
      if bool_decide (type pjson ≠ Some "module") then
        emit (Warn (boundaryWarning w (toStr boundary)));; mret ".mjs"
      else mret ext
    else mret ext
  else mret ext.

(** ** Stage 3: the executor (lines 91-160) *)

Definition rollupOptionsOf (w : World) (opts : BuildOptions)
    (inputObj : gmap string string) : RollupOptions :=
  {| ro_input := inputObj;
     ro_dir := out opts;
     ro_external := external opts;
     ro_sourcemap := sourcemap opts;
     ro_plugins :=
       [ {| pl_projectPath :=
              if truthyString (projectPath opts) then toStr (projectPath opts)
              else cwd w;
            pl_inlineDeps := truthy (inlineDeps opts);
            pl_externals := external opts;
            pl_env := env opts |} ];
     ro_output := None |}.

(** Lines 106-113: the [output] given to the watcher. *)
Definition watchOutput (opts : BuildOptions) : OutputOptions :=
  {| oo_entryFileNames := None;
     oo_chunkFileNames := None;
     oo_exports := "named";
     oo_dir := out opts;
     oo_format := format opts;
     oo_sourcemap := sourcemap opts;
     oo_indent := true;
     oo_banner := banner opts |}.

(** Lines 133-142: the argument of [build.write]. *)
Definition writeOptions (opts : BuildOptions) (ext : string) : OutputOptions :=
  {| oo_entryFileNames := Some ("[name]" +:+ ext);
     oo_chunkFileNames := Some ("chunk-[hash]" +:+ ext);
     oo_exports := "named";
     oo_dir := out opts;
     oo_format := format opts;
     oo_sourcemap := sourcemap opts;
     oo_indent := true;
     oo_banner := banner opts |}.

(** Lines 116-123: the listener, as a step on [firstRun]. *)
Definition onEvent (w : World) (opts : BuildOptions) (firstRun : bool)
    (code : string) : bool * list Event :=
  if firstRun then (false, [])
  else if String.eqb code "BUNDLE_START" then (firstRun, [Info "Rebuilding..."])
  else if String.eqb code "BUNDLE_END" then
    (firstRun, [Ok ("Built into " +:+ bold w (toStr (out opts)))])
  else (firstRun, []).

(** Lines 105-126.  The branch ends by awaiting a promise whose executor
    ignores both [resolve] and [reject]. *)
Definition watchBranch (w : World) (opts : BuildOptions) (ro : RollupOptions)
    : Eff RollupOptions :=
  if truthy (watch opts) then
    let ro := setOutput (watchOutput opts) ro in
    call (RollupWatch ro) (rollup_watch w ro);;
    emit (WatcherOn "event");;
    lift (@Pending unit);;
    mret ro
  else mret ro.

(** [Array.prototype.sort] with the default order, and the comparator of
    line 154 on distinct keys: ascending by character code. *)
Fixpoint insertSorted (x : string) (l : list string) : list string :=
  match l with
  | [] => [x]
  | y :: l' => if String.leb x y then x :: l else y :: insertSorted x l'
  end.

Definition jsSort (l : list string) : list string :=
  foldr insertSorted [] l.

Fixpoint join (sep : string) (l : list string) : string :=
  match l with
  | [] => EmptyString
  | [x] => x
  | x :: l' => x +:+ sep +:+ join sep l'
  end.

(** The identifier [name] of line 152 is bound nowhere in the module: it
    is read from the global scope. *)
Definition lookupName (w : World) : Eff string :=
  match global_name w with
  | Some v => mret v
  | None => lift (Throw (ReferenceError "name"))
  end.

Fixpoint logModules (w : World) (ms : list string) : Eff unit :=
  match ms with
  | [] => mret tt
  | module :: rest =>
      emit (ConsoleLog
        ("  " +:+ replaceWinSep w (path_relative w (cwd w) module)));;
      logModules w rest
  end.

(** Lines 149-159. *)
Fixpoint graphLoop (w : World) (output : list OutputChunk) : Eff unit :=
  match output with
  | [] => mret tt
  | entry :: rest =>
      let deps := imports entry in
      name ← lookupName w;
      emit (ConsoleLog
        (bold w name +:+
         (if bool_decide (deps = []) then EmptyString else " imports ") +:+
         join ", " (jsSort deps) +:+ ":"));;
      logModules w (jsSort (modules entry));;
      emit (ConsoleLog EmptyString);;
      graphLoop w rest
  end.

(** Lines 128-160. *)
Definition oneShot (w : World) (opts : BuildOptions) (ro : RollupOptions)
    (ext : string) : Eff unit :=
  build ← call (RollupRollup ro) (rollup_rollup w ro);
  (if truthy (removeDir opts) then
     call (RimrafSync (out opts)) (rimraf_sync w (out opts));;
     call (MkdirpSync (out opts)) (mkdirp_sync w (out opts))
   else mret tt);;
  output ← call (BuildWrite (writeOptions opts ext))
                (write build (writeOptions opts ext));
  (if log opts then
     emit (Ok ("Built into " +:+ highlight w (toStr (out opts) +:+ "/")))
   else mret tt);;
  if truthy (showGraph opts) && log opts then
    emit (ConsoleLog EmptyString);; graphLoop w output
  else mret tt.

Definition executor (w : World) (opts : BuildOptions)
    (inputObj : gmap string string) (ext : string) : Eff unit :=
  ro ← watchBranch w opts (rollupOptionsOf w opts inputObj);
  oneShot w opts ro ext.

(** ** [build] *)

(** Lines 50-89, on the options as they are after lines 47-48: [None] is
    the early [return], otherwise the values of [ext] and [inputObj] on
    reaching line 91. *)
Definition preamble (w : World) (input : BuildInput) (opts : BuildOptions)
    : Eff (option (string * gmap string string)) :=
  let ext := if truthy (mjs opts) then ".mjs" else ".js" in
  n ← normalizer w opts input ext;
  match n with
  | None => mret None
  | Some (ext, inputObj) =>
      ext ← resolver w opts ext; mret (Some (ext, inputObj))
  end.

(** Lines 50-160. *)
Definition buildBody (w : World) (input : BuildInput) (opts : BuildOptions)
    : Eff unit :=
  st ← preamble w input opts;
  match st with
  | None => mret tt
  | Some (ext, inputObj) => executor w opts inputObj ext
  end.

(** One call of [build]: the caller's options object as the call leaves
    it, the calls made to the outside, and how the returned promise ends. *)
Record Run := {
  opts_after : BuildOptions;
  trace : list Event;
  completion : Completion unit
}.

(** Lines 47-48. *)
Definition defaultFormat (opts : BuildOptions) : BuildOptions :=
  match format opts with
  | Some _ => opts
  | None => setFormat esm opts
  end.

Definition build (w : World) (input : BuildInput) (opts : BuildOptions) : Run :=
  let opts := defaultFormat opts in
  let r := buildBody w input opts in
  {| opts_after := opts; trace := r.1; completion := r.2 |}.

(** ** Vocabulary of the statements *)

(** The format of the build: the one supplied, or the default. *)
Definition effectiveFormat (opts : BuildOptions) : ModuleFormat :=
  default esm (format opts).

(** Some path of a list-style input ends in [.mjs]. *)
Definition hasMjsPath (input : BuildInput) : bool :=
  match input with
  | InputArray modules =>
      existsb (λ module, JSString.endsWith module ".mjs") modules
  | InputRecord _ => false
  end.

(** A [build.write] call names entry and chunk files with [ext]. *)
Definition writesUse (ext : string) (e : Event) : Prop :=
  match e with
  | BuildWrite o =>
      oo_entryFileNames o = Some ("[name]" +:+ ext) ∧
      oo_chunkFileNames o = Some ("chunk-[hash]" +:+ ext)
  | _ => True
  end.

(** Not a call of the package-boundary inspection. *)
Definition notInspection (e : Event) : Prop :=
  match e with
  | GetPackageBoundarySync _ | ReadPackageConfigSync _ => False
  | _ => True
  end.

(** Not an effect of the statements after line 126. *)
Definition notOneShot (e : Event) : Prop :=
  match e with
  | RollupRollup _ | RimrafSync _ | MkdirpSync _ | BuildWrite _
  | Ok _ | ConsoleLog _ => False
  | _ => True
  end.

(** ** A concrete set of collaborators

    Node on a POSIX system, run in [/proj] with colours off: [path.basename]
    as Node's POSIX implementation computes it (trailing slashes dropped,
    then the part after the last slash), [path.resolve] and [path.relative]
    for paths below the working directory, and collaborators that answer
    as the scenario's parameters say. *)

Fixpoint dropSlashes (l : list ascii) : list ascii :=
  match l with
  | a :: l' => if Ascii.eqb a "/" then dropSlashes l' else l
  | [] => []
  end.

Fixpoint takeToSlash (l : list ascii) : list ascii :=
  match l with
  | a :: l' => if Ascii.eqb a "/" then [] else a :: takeToSlash l'
  | [] => []
  end.

Definition posix_basename (p : string) : string :=
  String.string_of_list_ascii
    (rev (takeToSlash (dropSlashes (rev (String.list_ascii_of_string p))))).

Definition relativeBelow (from to : string) : string :=
  if String.prefix (from +:+ "/") to
  then String.substring (S (String.length from))
         (String.length to - S (String.length from)) to
  else to.

Definition scenario (boundary : option string) (pkgType : option string)
    (output : list OutputChunk) : World :=
  {| cwd := "/proj";
     path_sep := "/";
     path_basename := posix_basename;
     path_resolve := λ p,
       match p with
       | Some p => Normal ("/proj/" +:+ p)
       | None => Throw (ForeignError "ERR_INVALID_ARG_TYPE")
       end;
     path_relative := relativeBelow;
     getPackageBoundarySync := λ _, Normal boundary;
     readPackageConfigSync := λ _, Normal {| type := pkgType |};
     rollup_watch := λ _, Normal tt;
     rollup_rollup := λ _, Normal {| write := λ _, Normal output |};
     rimraf_sync := λ _, Normal tt;
     mkdirp_sync := λ _, Normal tt;
     global_name := None;
     bold := λ s, s;
     highlight := λ s, s;
     replaceWinSep := λ s, s |}.

Definition plainOptions : BuildOptions :=
  {| log := true; projectPath := None; removeDir := None; env := None;
     sourcemap := None; mjs := None; out := Some "dist"; format := None;
     external := None; globals := None; banner := None; showGraph := None;
     watch := None; target := None; inlineDeps := None |}.

Definition withMjs (b : bool) (o : BuildOptions) : BuildOptions :=
  {| log := log o; projectPath := projectPath o; removeDir := removeDir o;
     env := env o; sourcemap := sourcemap o; mjs := Some b; out := out o;
     format := format o;
     external := external o; globals := globals o; banner := banner o;
     showGraph := showGraph o; watch := watch o; target := target o;
     inlineDeps := inlineDeps o |}.

Definition withWatch (o : BuildOptions) : BuildOptions :=
  {| log := log o; projectPath := projectPath o; removeDir := removeDir o;
     env := env o; sourcemap := sourcemap o; mjs := mjs o; out := out o;
     format := format o;
     external := external o; globals := globals o; banner := banner o;
     showGraph := showGraph o; watch := Some true; target := target o;
     inlineDeps := inlineDeps o |}.

Definition withShowGraph (o : BuildOptions) : BuildOptions :=
  {| log := log o; projectPath := projectPath o; removeDir := removeDir o;
     env := env o; sourcemap := sourcemap o; mjs := mjs o; out := out o;
     format := format o;
     external := external o; globals := globals o; banner := banner o;
     showGraph := Some true; watch := watch o; target := target o;
     inlineDeps := inlineDeps o |}.

(** Every name visible through [in] on [inputObj]. *)
Definition visibleKeysOf (inputObj : gmap string string) : list string :=
  ((map_to_list inputObj).*1 ++ objectPrototypeKeys)%list.

(** The name tried by the collision loop [j] iterations after [i]. *)
Definition suffixedName (basename : string) (i : N) (j : nat) : string :=
  basename +:+ pretty (i + N.of_nat j)%N.

(** The condition of line 63, for a whole list. *)
Definition impliesMjsIn (opts : BuildOptions) (input : list string) : bool :=
  isEsm opts && mjsAbsent opts &&
  existsb (λ module, JSString.endsWith module ".mjs") input.

(** Whether the inspection of lines 77-88 is entered with [ext]. *)
Definition inspectsWith (opts : BuildOptions) (ext : string) : bool :=
  isEsm opts && mjsAbsent opts && negb (String.eqb ext ".mjs").

(** The extension with which the normaliser leaves a non-empty input. *)
Definition normalizedExtOf (opts : BuildOptions) (input : BuildInput) : string :=
  if isEsm opts && mjsAbsent opts && hasMjsPath input then ".mjs"
  else if truthy (mjs opts) then ".mjs" else ".js".

(** The watcher's options carry no file naming. *)
Definition watchUnnamed (e : Event) : Prop :=
  match e with
  | RollupWatch ro =>
      ∃ o, ro_output ro = Some o ∧
           oo_entryFileNames o = None ∧ oo_chunkFileNames o = None
  | _ => True
  end.

(** A reading of "the first input keeps the bare base name": an input
    whose candidate name no earlier input shares is entered under it. *)
Definition firstKeepsBareName (w : World) (modules : list string)
    (inputObj : gmap string string) : Prop :=
  ∀ (k : nat) module,
    modules !! k = Some module →
    (∀ (j : nat) module', (j < k)%nat → modules !! j = Some module' →
       candidateName w module' ≠ candidateName w module) →
    inputObj !! candidateName w module = Some module.

Definition mainChunk : OutputChunk :=
  {| chunk_name := "main"; imports := []; modules := ["/proj/src/main.js"] |}.

(** ** The listener over the watcher's events (lines 115-123)

    [handleEvents w opts firstRun codes] is what the listener prints when
    the watcher emits events with the codes [codes] in turn, [firstRun]
    being the listener's flag before the first of them. *)
Fixpoint handleEvents (w : World) (opts : BuildOptions) (firstRun : bool)
    (codes : list string) : list Event :=
  match codes with
  | [] => []
  | code :: rest =>
      ((onEvent w opts firstRun code).2 ++
       handleEvents w opts (onEvent w opts firstRun code).1 rest)%list
  end.

(** The line for one rebuild event: "Rebuilding..." for a start, the
    success line for an end, nothing for any other code. *)
Definition rebuildLine (w : World) (opts : BuildOptions) (code : string)
    : list Event :=
  if String.eqb code "BUNDLE_START" then [Info "Rebuilding..."]
  else if String.eqb code "BUNDLE_END"
       then [Ok ("Built into " +:+ bold w (toStr (out opts)))]
       else [].

(** A call to the engine is made with the options [base] (completed by
    the output [watchOut] for the watcher), a write with [writeOut]. *)
Definition engineCallWith (base : RollupOptions)
    (watchOut writeOut : OutputOptions) (e : Event) : Prop :=
  match e with
  | RollupRollup ro => ro = base
  | RollupWatch ro => ro = setOutput watchOut base
  | BuildWrite o => o = writeOut
  | _ => True
  end.

(** The directory is removed or created only on request: in one-shot mode,
    with [removeDir] set, and it is the output directory. *)
Definition dirTouchedOnRequest (opts : BuildOptions) (e : Event) : Prop :=
  match e with
  | RimrafSync d | MkdirpSync d =>
      truthy (removeDir opts) = true ∧ truthy (watch opts) = false ∧
      d = out opts
  | _ => True
  end.

(** Lines are printed only on request: the success line with [log], the
    lines of the graph with [log] and [showGraph]. *)
Definition printedOnRequest (w : World) (opts : BuildOptions) (e : Event)
    : Prop :=
  match e with
  | Ok s =>
      log opts = true ∧
      s = "Built into " +:+ highlight w (toStr (out opts) +:+ "/")
  | ConsoleLog _ => log opts = true ∧ truthy (showGraph opts) = true
  | Info _ => False
  | _ => True
  end.

(** The engine is given the entries [Q] speaks of. *)
Definition engineInputIs (Q : gmap string string → Prop) (e : Event) : Prop :=
  match e with
  | RollupRollup ro | RollupWatch ro => Q (ro_input ro)
  | _ => True
  end.

(** The engine is told the format [f]. *)
Definition formatGiven (f : ModuleFormat) (e : Event) : Prop :=
  match e with
  | BuildWrite o => oo_format o = Some f
  | RollupWatch ro => ∃ o, ro_output ro = Some o ∧ oo_format o = Some f
  | _ => True
  end.

(** The engine's options as lines 91-103 take them from the options. *)
Definition engineOptionsFrom (w : World) (opts : BuildOptions) (e : Event)
    : Prop :=
  match e with
  | RollupRollup ro | RollupWatch ro =>
      ro_dir ro = out opts ∧ ro_external ro = external opts ∧
      ro_sourcemap ro = sourcemap opts ∧
      ∃ plugin,
        ro_plugins ro = [plugin] ∧
        pl_externals plugin = external opts ∧ pl_env plugin = env opts ∧
        pl_inlineDeps plugin = truthy (inlineDeps opts) ∧
        match projectPath opts with
        | Some p => pl_projectPath plugin =
                      if String.eqb p EmptyString then cwd w else p
        | None => pl_projectPath plugin = cwd w
        end
  | _ => True
  end.

(** Neither a removal nor a creation of the output directory. *)
Definition leavesDirAlone (e : Event) : Prop :=
  match e with
  | RimrafSync _ | MkdirpSync _ => False
  | _ => True
  end.

(** Not a line on the terminal other than a warning. *)
Definition printsNothing (e : Event) : Prop :=
  match e with
  | Ok _ | Info _ | ConsoleLog _ => False
  | _ => True
  end.

(** Not an effect of lines 129-160, which follow the engine's build. *)
Definition notAfterBundle (e : Event) : Prop :=
  match e with
  | RimrafSync _ | MkdirpSync _ | BuildWrite _ | Ok _ | ConsoleLog _ => False
  | _ => True
  end.


(** Lines 129-132, the directory handling of the one-shot path. *)
Definition dirStep (w : World) (opts : BuildOptions) : Eff unit :=
  if truthy (removeDir opts) then
    call (RimrafSync (out opts)) (rimraf_sync w (out opts));;
    call (MkdirpSync (out opts)) (mkdirp_sync w (out opts))
  else mret tt.

(** Lines 143-160, the reporting of the one-shot path. *)
Definition report (w : World) (opts : BuildOptions)
    (output : list OutputChunk) : Eff unit :=
  (if log opts then
     emit (Ok ("Built into " +:+ highlight w (toStr (out opts) +:+ "/")))
   else mret tt);;
  if truthy (showGraph opts) && log opts then
    emit (ConsoleLog EmptyString);; graphLoop w output
  else mret tt.

(** Not an effect of lines 131-160, which follow the removal. *)
Definition notAfterRemoval (e : Event) : Prop :=
  match e with
  | MkdirpSync _ | BuildWrite _ | Ok _ | ConsoleLog _ => False
  | _ => True
  end.

(** The same collaborators, with another engine. *)
Definition withEngine (engine : RollupOptions → Completion RollupBuild)
    (w : World) : World :=
  {| cwd := cwd w; path_sep := path_sep w; path_basename := path_basename w;
     path_resolve := path_resolve w; path_relative := path_relative w;
     getPackageBoundarySync := getPackageBoundarySync w;
     readPackageConfigSync := readPackageConfigSync w;
     rollup_watch := rollup_watch w;
     rollup_rollup := engine;
     rimraf_sync := rimraf_sync w; mkdirp_sync := mkdirp_sync w;
     global_name := global_name w; bold := bold w; highlight := highlight w;
     replaceWinSep := replaceWinSep w |}.

(** The same collaborators, with another [rimraf.sync]. *)
Definition withRimraf (rimraf : option string → Completion unit)
    (w : World) : World :=
  {| cwd := cwd w; path_sep := path_sep w; path_basename := path_basename w;
     path_resolve := path_resolve w; path_relative := path_relative w;
     getPackageBoundarySync := getPackageBoundarySync w;
     readPackageConfigSync := readPackageConfigSync w;
     rollup_watch := rollup_watch w;
     rollup_rollup := rollup_rollup w;
     rimraf_sync := rimraf; mkdirp_sync := mkdirp_sync w;
     global_name := global_name w; bold := bold w; highlight := highlight w;
     replaceWinSep := replaceWinSep w |}.


Definition withRemoveDir (o : BuildOptions) : BuildOptions :=
  {| log := log o; projectPath := projectPath o; removeDir := Some true;
     env := env o; sourcemap := sourcemap o; mjs := mjs o; out := out o;
     format := format o;
     external := external o; globals := globals o; banner := banner o;
     showGraph := showGraph o; watch := watch o; target := target o;
     inlineDeps := inlineDeps o |}.

Definition withLog (b : bool) (o : BuildOptions) : BuildOptions :=
  {| log := b; projectPath := projectPath o; removeDir := removeDir o;
     env := env o; sourcemap := sourcemap o; mjs := mjs o; out := out o;
     format := format o;
     external := external o; globals := globals o; banner := banner o;
     showGraph := showGraph o; watch := watch o; target := target o;
     inlineDeps := inlineDeps o |}.

(** The manifest is read only where the inspection of lines 76-80 leads:
    for format ['esm'] without an [mjs] key, at a non-empty boundary that
    the collaborator reported for the resolved output directory. *)
Definition readAtReportedBoundary (w : World) (opts : BuildOptions)
    (e : Event) : Prop :=
  match e with
  | ReadPackageConfigSync b =>
      default esm (format opts) = esm ∧ mjs opts = None ∧
      b ≠ EmptyString ∧
      ∃ outdir,
        path_resolve w (out opts) = Normal outdir ∧
        getPackageBoundarySync w (outdir +:+ "/") = Normal (Some b)
  | _ => True
  end.

(** * Properties *)

(** ** The collision loop ends and returns a free name *)

Section CollisionLoop.
Variable basename : string.
Variable inputObj : gmap string string.

Local Abbreviation visibleKeys := (visibleKeysOf inputObj).
Local Abbreviation suffixed := (suffixedName basename).

Lemma js_in_visible k : js_in k inputObj = true → k ∈ visibleKeys.
Proof.
  unfold js_in, visibleKeysOf. intros H.
  apply orb_true_iff in H as [H | H]; apply bool_decide_eq_true in H.
  - destruct H as [v Hv]. apply elem_of_app; left.
    apply list_elem_of_fmap. exists (k, v). split; [done |].
    by apply elem_of_map_to_list.
  - apply elem_of_app; by right.
Qed.

Lemma length_visibleKeys :
  length visibleKeys = (size inputObj + length objectPrototypeKeys)%nat.
Proof.
  unfold visibleKeysOf. by rewrite length_app, length_fmap, length_map_to_list.
Qed.

Lemma suffixed_inj i : Inj (=) (=) (suffixed i).
Proof.
  intros j k H. unfold suffixedName in H.
  apply (inj (String.app basename)) in H. apply (inj pretty) in H. lia.
Qed.

(** A loop still running after [fuel] iterations has found all of the
    first [fuel] suffixed names taken. *)
Lemma whileInObj_None fuel inputName i :
  whileInObj fuel basename inputObj inputName i = None →
  ∀ j, (j < fuel)%nat → js_in (suffixed i j) inputObj = true.
Proof.
  revert inputName i.
  induction fuel as [| fuel IH]; intros inputName i H j Hj; [lia |].
  simpl in H. destruct (js_in inputName inputObj); [| done].
  destruct j as [| j].
  - unfold suffixedName. replace (i + N.of_nat 0)%N with i by lia.
    destruct fuel; simpl in H;
      destruct (js_in (basename +:+ pretty i) inputObj); done.
  - unfold suffixedName.
    replace (i + N.of_nat (S j))%N with ((i + 1) + N.of_nat j)%N by lia.
    apply (IH _ _ H). lia.
Qed.

Lemma whileInObj_total inputName i :
  is_Some (whileInObj (loopFuel inputObj) basename inputObj inputName i).
Proof.
  destruct (whileInObj _ _ _ _ _) as [n |] eqn:H; [by eexists |].
  exfalso.
  pose proof (whileInObj_None _ _ _ H) as Hall.
  assert (suffixed i <$> seq 0 (loopFuel inputObj) ⊆+ visibleKeys) as Hsub.
  { apply NoDup_submseteq.
    - apply (@NoDup_fmap_2 _ _ (suffixed i) (suffixed_inj i)), NoDup_seq.
    - intros x Hx. apply list_elem_of_fmap in Hx as (j & -> & Hj).
      apply elem_of_seq in Hj. apply js_in_visible, Hall. lia. }
  apply submseteq_length in Hsub.
  rewrite length_fmap, length_seq, length_visibleKeys in Hsub.
  unfold loopFuel in Hsub. lia.
Qed.

Lemma whileInObj_free fuel inputName i n :
  whileInObj fuel basename inputObj inputName i = Some n →
  js_in n inputObj = false.
Proof.
  revert inputName i.
  induction fuel as [| fuel IH]; intros inputName i; simpl;
    destruct (js_in inputName inputObj) eqn:E; try done.
  - by intros [= <-].
  - apply IH.
  - by intros [= <-].
Qed.

(** The name returned is the one the loop started from, or carries the
    least suffix, counted from [i], that makes it free. *)
Lemma whileInObj_shape fuel inputName i n :
  whileInObj fuel basename inputObj inputName i = Some n →
  (n = inputName ∧ js_in inputName inputObj = false) ∨
  (js_in inputName inputObj = true ∧
   ∃ j : N, n = basename +:+ pretty j ∧ (i ≤ j)%N ∧
     ∀ k : N, (i ≤ k < j)%N → js_in (basename +:+ pretty k) inputObj = true).
Proof.
  revert inputName i.
  induction fuel as [| fuel IH]; intros inputName i; simpl;
    destruct (js_in inputName inputObj) eqn:E; try done.
  - intros [= <-]. by left.
  - intros H. right. split; [done |].
    destruct (IH _ _ H) as [[-> Hfree] | [Htaken (j & -> & Hj & Hmin)]].
    + exists i. split; [done |]. split; [lia |]. intros k Hk. lia.
    + exists j. split; [done |]. split; [lia |]. intros k Hk.
      destruct (decide (k = i)) as [-> | Hne]; [done |]. apply Hmin. lia.
  - intros [= <-]. by left.
Qed.

Lemma pickInputName_total : is_Some (pickInputName basename inputObj).
Proof. apply whileInObj_total. Qed.

Lemma pickInputName_free n :
  pickInputName basename inputObj = Some n → js_in n inputObj = false.
Proof. apply whileInObj_free. Qed.

Lemma pickInputName_bare :
  js_in basename inputObj = false →
  pickInputName basename inputObj = Some basename.
Proof.
  intros H. unfold pickInputName, loopFuel. simpl. by rewrite H.
Qed.

Lemma pickInputName_shape n :
  pickInputName basename inputObj = Some n →
  (n = basename ∧ js_in basename inputObj = false) ∨
  (js_in basename inputObj = true ∧
   ∃ j : N, n = basename +:+ pretty j ∧
     ∀ k : N, (k < j)%N → js_in (basename +:+ pretty k) inputObj = true).
Proof.
  intros H. apply whileInObj_shape in H as [? | [? (j & ? & ? & Hmin)]];
    [by left | right].
  split; [done |]. exists j. split; [done |]. intros k Hk. apply Hmin. lia.
Qed.

End CollisionLoop.

(** ** The [for ... of] loop of the normaliser *)

Section Normaliser.
Variable w : World.
Variable opts : BuildOptions.

Local Abbreviation impliesMjs := (impliesMjsIn opts).

Lemma forBody_Some st module :
  ∃ n, pickInputName (candidateName w module) st.2 = Some n ∧
       forBody w opts st module =
         Some (if impliesMjs [module] then ".mjs" else st.1,
               <[n := module]> st.2).
Proof.
  destruct (pickInputName_total (candidateName w module) st.2) as [n Hn].
  exists n. split; [done |]. unfold forBody, impliesMjsIn. rewrite Hn. simpl.
  by rewrite orb_false_r.
Qed.

Lemma forOf_total input st : is_Some (forOf w opts input st).
Proof.
  revert st. induction input as [| module rest IH]; intros st; simpl.
  - by eexists.
  - destruct (forBody_Some st module) as (n & _ & ->). simpl. apply IH.
Qed.

Lemma forOf_ext input st st' :
  forOf w opts input st = Some st' →
  st'.1 = if impliesMjs input then ".mjs" else st.1.
Proof.
  revert st. induction input as [| module rest IH]; intros st; simpl.
  - intros [= <-]. unfold impliesMjsIn. simpl. by rewrite andb_false_r.
  - destruct (forBody_Some st module) as (n & _ & ->). simpl.
    intros H. rewrite (IH _ H). simpl. unfold impliesMjsIn. simpl.
    destruct (isEsm opts && mjsAbsent opts); simpl; [| done].
    rewrite orb_false_r.
    destruct (JSString.endsWith module ".mjs"); simpl; [| done].
    by destruct (existsb _ rest).
Qed.

Lemma js_in_insert k n v (m : gmap string string) :
  k ≠ n → js_in k (<[n := v]> m) = js_in k m.
Proof. intros H. unfold js_in. by rewrite lookup_insert_ne. Qed.


(** The loop enters the inputs one by one under fresh names [names]:
    each name is the input's candidate, bare or suffixed, and it is the
    bare candidate whenever that is neither visible in the object the
    loop started from nor given to an earlier input. *)
Lemma forOf_names input st st' :
  forOf w opts input st = Some st' →
  ∃ names : list string,
    length names = length input ∧
    NoDup names ∧
    (∀ n, n ∈ names → js_in n st.2 = false) ∧
    st'.2 = list_to_map (zip names input) ∪ st.2 ∧
    ∀ (k : nat) name module,
      names !! k = Some name → input !! k = Some module →
      (name = candidateName w module ∨
       ∃ i : N, name = candidateName w module +:+ pretty i ∧
         ∀ j : N, (j < i)%N →
           js_in (candidateName w module +:+ pretty j) st.2 = true ∨
           candidateName w module +:+ pretty j ∈ take k names) ∧
      (js_in (candidateName w module) st.2 = false →
       candidateName w module ∉ take k names →
       name = candidateName w module).
Proof.
  revert st. induction input as [| module rest IH]; intros st; simpl.
  - intros [= <-]. exists []. split; [done |]. split; [constructor |].
    split; [by intros n Hn; apply elem_of_nil in Hn |].
    split; [symmetry; apply (left_id_L ∅ (∪)) |]. by intros [| k] ???.
  - destruct (forBody_Some st module) as (n & Hn & ->). simpl. intros H.
    destruct (IH _ H) as (names & Hlen & Hnd & Hfree & Hmap & Hidx).
    simpl in *.
    pose proof (pickInputName_free _ _ _ Hn) as Hnfree.
    assert (∀ x, x ∈ names → x ≠ n ∧ js_in x st.2 = false) as Hold.
    { intros x Hx. specialize (Hfree x Hx).
      destruct (decide (x = n)) as [-> | Hne].
      - unfold js_in in Hfree. rewrite lookup_insert_eq in Hfree.
        rewrite bool_decide_eq_true_2 in Hfree by (by eexists). done.
      - split; [done |]. by rewrite js_in_insert in Hfree. }
    exists (n :: names). split; [simpl; by rewrite Hlen |].
    split.
    { constructor; [| done]. intros Hin. by destruct (Hold n Hin). }
    split.
    { intros x Hx. apply elem_of_cons in Hx as [-> | Hx]; [done |].
      by destruct (Hold x Hx). }
    split.
    { rewrite Hmap. simpl. rewrite <- insert_union_l, <- insert_union_r;
        [done |].
      apply not_elem_of_list_to_map_1. intros Hin.
      apply list_elem_of_fmap in Hin as ([x y] & -> & Hxy).
      apply elem_of_zip_l in Hxy. by destruct (Hold x Hxy). }
    intros [| k] name module'; simpl.
    + intros [= <-] [= <-].
      apply pickInputName_shape in Hn as [[-> ?] | [? (j & -> & ?)]].
      * split; [by left | done].
      * split; [right; exists j; split; [done | by left; auto] | congruence].
    + intros Hname Hmod. destruct (Hidx k name module' Hname Hmod) as [Hs Hb].
      split.
      * destruct Hs as [-> | (i & -> & Hmin)]; [by left | right].
        exists i. split; [done |]. intros j Hj.
        destruct (decide (candidateName w module' +:+ pretty j = n))
          as [-> | Hne]; [right; apply elem_of_cons; by left |].
        destruct (Hmin j Hj) as [Hin | Hin].
        -- left. by rewrite js_in_insert in Hin.
        -- right. apply elem_of_cons. by right.
      * intros Hfree' Hnot. apply not_elem_of_cons in Hnot.
        destruct Hnot as [Hne Hnot]. apply Hb; [| done].
        by rewrite js_in_insert.
Qed.

Lemma normalizer_array module rest ext :
  ∃ inputObj,
    forOf w opts (module :: rest) (ext, ∅) =
      Some (if impliesMjs (module :: rest) then ".mjs" else ext, inputObj) ∧
    normalizer w opts (InputArray (module :: rest)) ext =
      ([], Normal (Some (if impliesMjs (module :: rest) then ".mjs" else ext,
                         inputObj))).
Proof.
  destruct (forOf_total (module :: rest) (ext, ∅)) as [[e io] H].
  pose proof (forOf_ext _ _ _ H) as He. simpl in He. subst e.
  exists io. split; [done |]. unfold normalizer. by rewrite H.
Qed.

End Normaliser.

(** ** The effect monad *)

Arguments Eff_bind : simpl never.
Arguments mbind : simpl never.

Section EffLemmas.
Context {A B : Type}.

Lemma bind_Normal (m : Eff A) (f : A → Eff B) t a :
  m = (t, Normal a) → m ≫= f = ((t ++ (f a).1)%list, (f a).2).
Proof. intros ->. unfold mbind, Eff_bind. by destruct (f a). Qed.

Lemma bind_Throw (m : Eff A) (f : A → Eff B) t e :
  m = (t, Throw e) → m ≫= f = (t, Throw e).
Proof. by intros ->. Qed.

Lemma bind_Pending (m : Eff A) (f : A → Eff B) t :
  m = (t, Pending) → m ≫= f = (t, Pending).
Proof. by intros ->. Qed.

Lemma bind_Forall (P : Event → Prop) (m : Eff A) (f : A → Eff B) :
  Forall P m.1 → (∀ a, m.2 = Normal a → Forall P (f a).1) →
  Forall P (m ≫= f).1.
Proof.
  destruct m as [t [a | e |]]; intros Ht Hf; simpl in *; try done.
  specialize (Hf a eq_refl). unfold mbind, Eff_bind.
  destruct (f a) as [t' c]. simpl in *. by apply Forall_app.
Qed.



End EffLemmas.

(** ** The executor *)

Section Executor.
Variable w : World.
Variable opts : BuildOptions.

Lemma logModules_events (P : Event → Prop) ms :
  (∀ s, P (ConsoleLog s)) → Forall P (logModules w ms).1.
Proof.
  intros HP. induction ms as [| module rest IH]; simpl; [constructor |].
  apply bind_Forall; [repeat constructor; apply HP | done].
Qed.

Lemma graphLoop_events (P : Event → Prop) output :
  (∀ s, P (ConsoleLog s)) → Forall P (graphLoop w output).1.
Proof.
  intros HP. induction output as [| entry rest IH]; simpl; [constructor |].
  apply bind_Forall.
  { unfold lookupName. destruct (global_name w); constructor. }
  intros name _. apply bind_Forall; [repeat constructor; apply HP |].
  intros _ _. apply bind_Forall; [by apply logModules_events |].
  intros _ _. apply bind_Forall; [repeat constructor; apply HP | done].
Qed.

Lemma oneShot_events (P : Event → Prop) ro ext :
  P (RollupRollup ro) → (∀ d, P (RimrafSync d)) → (∀ d, P (MkdirpSync d)) →
  P (BuildWrite (writeOptions opts ext)) →
  (∀ s, P (Ok s)) → (∀ s, P (ConsoleLog s)) →
  Forall P (oneShot w opts ro ext).1.
Proof.
  intros Hr Hrm Hmk Hw Hok Hlog. unfold oneShot.
  apply bind_Forall; [by repeat constructor |]. intros b _.
  apply bind_Forall.
  { destruct (truthy (removeDir opts)); [| constructor].
    apply bind_Forall; [by repeat constructor |]. intros _ _.
    by repeat constructor. }
  intros _ _. apply bind_Forall; [by repeat constructor |]. intros output _.
  apply bind_Forall.
  { destruct (log opts); by repeat constructor. }
  intros _ _. destruct (truthy (showGraph opts) && log opts); [| constructor].
  apply bind_Forall; [by repeat constructor |]. intros _ _.
  by apply graphLoop_events.
Qed.

Lemma watchBranch_off ro :
  truthy (watch opts) = false → watchBranch w opts ro = ([], Normal ro).
Proof. intros H. unfold watchBranch. by rewrite H. Qed.

(** With [watch] set, the branch never hands control to line 128. *)
Lemma watchBranch_on ro :
  truthy (watch opts) = true →
  let ro' := setOutput (watchOutput opts) ro in
  watchBranch w opts ro =
    match rollup_watch w ro' with
    | Normal _ => ([RollupWatch ro'; WatcherOn "event"], Pending)
    | Throw e => ([RollupWatch ro'], Throw e)
    | Pending => ([RollupWatch ro'], Pending)
    end.
Proof.
  intros H. unfold watchBranch. rewrite H. simpl.
  unfold call, mbind, Eff_bind. by destruct (rollup_watch w _).
Qed.

Lemma executor_off inputObj ext :
  truthy (watch opts) = false →
  executor w opts inputObj ext =
    oneShot w opts (rollupOptionsOf w opts inputObj) ext.
Proof.
  intros H. unfold executor. rewrite (watchBranch_off _ H).
  rewrite (bind_Normal _ _ [] _ eq_refl). simpl. by destruct (oneShot _ _ _ _).
Qed.

Lemma executor_on inputObj ext :
  truthy (watch opts) = true →
  let ro' := setOutput (watchOutput opts) (rollupOptionsOf w opts inputObj) in
  executor w opts inputObj ext =
    match rollup_watch w ro' with
    | Normal _ => ([RollupWatch ro'; WatcherOn "event"], Pending)
    | Throw e => ([RollupWatch ro'], Throw e)
    | Pending => ([RollupWatch ro'], Pending)
    end.
Proof.
  intros H. unfold executor. rewrite (watchBranch_on _ H). simpl.
  by destruct (rollup_watch w _).
Qed.

(** Every [build.write] of the executor carries the extension it was
    given, and the executor never inspects the package boundary. *)
Lemma executor_writes inputObj ext :
  Forall (writesUse ext) (executor w opts inputObj ext).1.
Proof.
  destruct (truthy (watch opts)) eqn:H.
  - rewrite (executor_on _ _ H). simpl.
    destruct (rollup_watch w _); by repeat constructor.
  - rewrite (executor_off _ _ H). by apply oneShot_events.
Qed.

Lemma executor_no_inspection inputObj ext :
  Forall notInspection (executor w opts inputObj ext).1.
Proof.
  destruct (truthy (watch opts)) eqn:H.
  - rewrite (executor_on _ _ H). simpl.
    destruct (rollup_watch w _); by repeat constructor.
  - rewrite (executor_off _ _ H). by apply oneShot_events.
Qed.

End Executor.

(** ** Lines 47-89: defaulting, normalising, resolving *)

Section Preamble.
Variable w : World.

Lemma defaultFormat_format opts :
  format (defaultFormat opts) = Some (effectiveFormat opts).
Proof.
  unfold defaultFormat, effectiveFormat. by destruct (format opts) eqn:E.
Qed.

Lemma defaultFormat_mjs opts : mjs (defaultFormat opts) = mjs opts.
Proof. unfold defaultFormat. by destruct (format opts). Qed.

Lemma defaultFormat_out opts : out (defaultFormat opts) = out opts.
Proof. unfold defaultFormat. by destruct (format opts). Qed.

Lemma defaultFormat_watch opts : watch (defaultFormat opts) = watch opts.
Proof. unfold defaultFormat. by destruct (format opts). Qed.

Lemma isEsm_defaultFormat opts :
  isEsm (defaultFormat opts) = bool_decide (effectiveFormat opts = esm).
Proof.
  unfold isEsm. rewrite defaultFormat_format.
  apply bool_decide_ext. split; [congruence | by intros ->].
Qed.

Variable opts : BuildOptions.

Local Abbreviation inspects := (inspectsWith opts).
Local Abbreviation normalizedExt := (normalizedExtOf opts).

Lemma resolver_skip ext :
  inspects ext = false → resolver w opts ext = ([], Normal ext).
Proof. unfold resolver, inspectsWith. by intros ->. Qed.


Lemma resolver_events (P : Event → Prop) ext :
  (∀ s, P (Warn s)) → (∀ d, P (GetPackageBoundarySync d)) →
  (∀ b, P (ReadPackageConfigSync b)) →
  Forall P (resolver w opts ext).1.
Proof.
  intros Hw Hg Hr. unfold resolver.
  destruct (isEsm opts && mjsAbsent opts && negb (String.eqb ext ".mjs"));
    [| constructor].
  apply bind_Forall; [destruct (path_resolve w (out opts)); constructor |].
  intros outdir _. apply bind_Forall; [by repeat constructor |].
  intros boundary _. destruct (truthyString boundary); [| constructor].
  apply bind_Forall; [by repeat constructor |]. intros pjson _.
  destruct (bool_decide (type pjson ≠ Some "module")); [| constructor].
  apply bind_Forall; [by repeat constructor | constructor].
Qed.

Lemma preamble_proceeds input :
  input ≠ InputArray [] →
  ∃ inputObj,
    normalizer w opts input (if truthy (mjs opts) then ".mjs" else ".js") =
      ([], Normal (Some (normalizedExt input, inputObj))) ∧
    preamble w input opts =
      (ext ← resolver w opts (normalizedExt input);
       mret (Some (ext, inputObj))).
Proof.
  intros Hne. unfold preamble, normalizedExtOf.
  destruct input as [[| module rest] | inputObj]; [done | |].
  - destruct (normalizer_array w opts module rest
                (if truthy (mjs opts) then ".mjs" else ".js"))
      as (inputObj & _ & Hn).
    exists inputObj. unfold impliesMjsIn in Hn. rewrite Hn. split; [done |].
    rewrite (bind_Normal _ _ [] _ eq_refl). simpl.
    by destruct (resolver w opts _ ≫= _).
  - exists inputObj. simpl. rewrite andb_false_r. split; [done |].
    unfold mret, Eff_ret. rewrite (bind_Normal _ _ [] _ eq_refl). simpl.
    by destruct (resolver w opts _ ≫= _).
Qed.

Lemma preamble_empty :
  preamble w (InputArray []) opts =
    ([Warn "No inputs provided to build."], Normal None).
Proof. reflexivity. Qed.

Lemma preamble_events (P : Event → Prop) input :
  (∀ s, P (Warn s)) → (∀ d, P (GetPackageBoundarySync d)) →
  (∀ b, P (ReadPackageConfigSync b)) →
  Forall P (preamble w input opts).1.
Proof.
  intros Hw Hg Hr.
  assert (input = InputArray [] ∨ input ≠ InputArray []) as [-> | Hne]
    by (destruct input as [[| ??] | ?]; [by left | by right | by right]).
  - rewrite preamble_empty. by repeat constructor.
  - destruct (preamble_proceeds input Hne) as (inputObj & _ & ->).
    apply bind_Forall; [by apply resolver_events | constructor].
Qed.

Lemma buildBody_cases input :
  buildBody w input opts =
    match preamble w input opts with
    | (t, Normal (Some (ext, inputObj))) =>
        ((t ++ (executor w opts inputObj ext).1)%list,
         (executor w opts inputObj ext).2)
    | (t, Normal None) => (t, Normal tt)
    | (t, Throw e) => (t, Throw e)
    | (t, Pending) => (t, Pending)
    end.
Proof.
  unfold buildBody. destruct (preamble w input opts) as [t [[[ext io] |] | e |]];
    try done.
  - by rewrite (bind_Normal _ _ t _ eq_refl).
  - rewrite (bind_Normal _ _ t _ eq_refl). simpl. by rewrite app_nil_r.
Qed.

(** Whatever the preamble resolved is what every [build.write] uses. *)
Lemma buildBody_writes input t ext inputObj :
  preamble w input opts = (t, Normal (Some (ext, inputObj))) →
  Forall (writesUse ext) (buildBody w input opts).1.
Proof.
  intros H. rewrite buildBody_cases, H. simpl. apply Forall_app. split.
  - rewrite <- (f_equal fst H : (preamble w input opts).1 = t).
    by apply preamble_events.
  - apply executor_writes.
Qed.

End Preamble.

(** ** Events of a whole call *)

Section WholeCall.
Variable w : World.
Variable opts : BuildOptions.

Lemma executor_events (P : Event → Prop) inputObj ext :
  (∀ ro, watchUnnamed (RollupWatch ro) → P (RollupWatch ro)) →
  P (WatcherOn "event") →
  (∀ ro, P (RollupRollup ro)) →
  (∀ d, P (RimrafSync d)) → (∀ d, P (MkdirpSync d)) →
  P (BuildWrite (writeOptions opts ext)) →
  (∀ s, P (Ok s)) → (∀ s, P (ConsoleLog s)) →
  Forall P (executor w opts inputObj ext).1.
Proof.
  intros Hw Hon Hr Hrm Hmk Hbw Hok Hlog.
  destruct (truthy (watch opts)) eqn:H.
  - rewrite (executor_on _ _ _ _ H). simpl.
    assert (P (RollupWatch
              (setOutput (watchOutput opts) (rollupOptionsOf w opts inputObj))))
      by (apply Hw; by eexists).
    destruct (rollup_watch w _); by repeat constructor.
  - rewrite (executor_off _ _ _ _ H). by apply oneShot_events.
Qed.

Lemma buildBody_events (P : Event → Prop) input :
  (∀ s, P (Warn s)) → (∀ d, P (GetPackageBoundarySync d)) →
  (∀ b, P (ReadPackageConfigSync b)) →
  (∀ ro, watchUnnamed (RollupWatch ro) → P (RollupWatch ro)) →
  P (WatcherOn "event") →
  (∀ ro, P (RollupRollup ro)) →
  (∀ d, P (RimrafSync d)) → (∀ d, P (MkdirpSync d)) →
  (∀ ext, P (BuildWrite (writeOptions opts ext))) →
  (∀ s, P (Ok s)) → (∀ s, P (ConsoleLog s)) →
  Forall P (buildBody w input opts).1.
Proof.
  intros. rewrite buildBody_cases.
  pose proof (preamble_events w opts P input) as Hpre.
  destruct (preamble w input opts) as [t [[[ext io] |] | e |]]; simpl in *;
    auto.
  apply Forall_app. split; [auto |]. by apply executor_events.
Qed.


End WholeCall.

(** ** From the resolved extension to the written files *)

Section Resolved.
Variable w : World.
Variable opts : BuildOptions.

Lemma preamble_resolved input t ext :
  input ≠ InputArray [] →
  resolver w opts (normalizedExtOf opts input) = (t, Normal ext) →
  ∃ inputObj, preamble w input opts = (t, Normal (Some (ext, inputObj))).
Proof.
  intros Hne Hres. destruct (preamble_proceeds w opts input Hne)
    as (inputObj & _ & ->).
  exists inputObj. rewrite (bind_Normal _ _ t ext Hres). simpl.
  by rewrite app_nil_r.
Qed.

Lemma buildBody_trace input t ext inputObj :
  preamble w input opts = (t, Normal (Some (ext, inputObj))) →
  (buildBody w input opts).1 = (t ++ (executor w opts inputObj ext).1)%list.
Proof. intros H. by rewrite buildBody_cases, H. Qed.

Lemma executor_no_warning inputObj ext s :
  Warn s ∉ (executor w opts inputObj ext).1.
Proof.
  intros Hin. eapply (Forall_forall (λ e, e ≠ Warn s)) in Hin; [done |].
  by apply executor_events.
Qed.

(** A call whose normalised extension does not call for the inspection
    resolves that extension, writes with it, and inspects nothing. *)
Lemma buildBody_without_inspection input :
  input ≠ InputArray [] →
  inspectsWith opts (normalizedExtOf opts input) = false →
  (∃ inputObj,
     preamble w input opts =
       ([], Normal (Some (normalizedExtOf opts input, inputObj)))) ∧
  Forall (writesUse (normalizedExtOf opts input)) (buildBody w input opts).1 ∧
  Forall notInspection (buildBody w input opts).1.
Proof.
  intros Hne Hskip.
  destruct (preamble_resolved input [] _ Hne (resolver_skip w opts _ Hskip))
    as [inputObj Hpre].
  split; [by exists inputObj |].
  split; [by eapply buildBody_writes |].
  rewrite (buildBody_trace _ _ _ _ Hpre). simpl.
  apply executor_no_inspection.
Qed.


End Resolved.

(** ** Names given by the normaliser *)

Lemma js_in_empty (k : string) :
  js_in k ∅ = bool_decide (k ∈ objectPrototypeKeys).
Proof. unfold js_in. by rewrite lookup_empty, bool_decide_eq_false_2 by (by intros [? ?]). Qed.


Lemma lastIndexOf_lacks (c : ascii) (s : string) (i found : Z) :
  JSString.lacks c s → JSString.lastIndexOf_from s c i found = found.
Proof.
  revert i found. induction s as [| a s IH]; intros i found; simpl; [done |].
  intros [Hne Hs]. rewrite (IH _ _ Hs).
  destruct (Ascii.eqb a c) eqn:E; [| done]. by apply Ascii.eqb_eq in E.
Qed.



(** A suffixed name ends in a digit, which no inherited name does. *)
Lemma lastChar_app (s t : string) :
  t ≠ EmptyString → JSString.lastChar (s +:+ t) = JSString.lastChar t.
Proof.
  intros Ht. induction s as [| a s IH]; [done |].
  simpl. rewrite IH. destruct (s +:+ t) eqn:E; [| done].
  destruct s; simpl in E; [done | discriminate].
Qed.

Lemma pretty_N_go_lastChar (x : N) (a : ascii) (s : string) :
  JSString.lastChar (pretty_N_go x (String a s)) =
  JSString.lastChar (String a s).
Proof.
  revert a s. induction (N.lt_wf_0 x) as [x _ IH]; intros a s.
  destruct (decide (x = 0)%N) as [-> | Hx]; [by rewrite pretty_N_go_0 |].
  rewrite pretty_N_go_step by lia.
  rewrite IH by (apply N.div_lt; lia). done.
Qed.

Lemma pretty_N_char_digit (x : N) :
  (x < 10)%N → pretty_N_char x ∈ JSString.digitChars.
Proof.
  intros Hx.
  assert (Forall (λ k : nat, pretty_N_char (N.of_nat k) ∈ JSString.digitChars)
            (seq 0 10)) as Hall
    by (apply (bool_decide_unpack _); by vm_compute).
  rewrite Forall_forall in Hall.
  rewrite <- (N2Nat.id x). apply Hall, elem_of_seq. lia.
Qed.

Lemma pretty_lastChar (n : N) :
  pretty n ≠ EmptyString ∧
  ∃ d, JSString.lastChar (pretty n) = Some d ∧ d ∈ JSString.digitChars.
Proof.
  unfold pretty, pretty_N. destruct (decide (n = 0)%N) as [-> | Hn].
  - split; [done |]. exists "0"%char. split; [done | set_solver].
  - rewrite pretty_N_go_step by lia.
    pose proof (pretty_N_go_lastChar (n `div` 10)
                  (pretty_N_char (n `mod` 10)) EmptyString) as Hlast.
    split.
    + intros E. rewrite E in Hlast. discriminate Hlast.
    + eexists. split; [exact Hlast |].
      apply pretty_N_char_digit, N.mod_lt. lia.
Qed.

Lemma inherited_names_end_in_no_digit :
  Forall (λ key, Forall (λ d, JSString.lastChar key ≠ Some d)
                   JSString.digitChars) objectPrototypeKeys.
Proof. apply (bool_decide_unpack _). by vm_compute. Qed.

Lemma suffixed_not_inherited (basename : string) (j : N) :
  basename +:+ pretty j ∉ objectPrototypeKeys.
Proof.
  intros Hin. destruct (pretty_lastChar j) as (Hne & d & Hlast & Hd).
  pose proof inherited_names_end_in_no_digit as Hall.
  rewrite Forall_forall in Hall. specialize (Hall _ Hin).
  rewrite Forall_forall in Hall. apply (Hall d Hd).
  by rewrite lastChar_app.
Qed.



(** ** The calls to the engine *)

Section EngineCalls.
Variable w : World.
Variable opts : BuildOptions.

Lemma executor_calls inputObj ext :
  Forall (engineCallWith (rollupOptionsOf w opts inputObj)
            (watchOutput opts) (writeOptions opts ext))
    (executor w opts inputObj ext).1.
Proof.
  destruct (truthy (watch opts)) eqn:H.
  - rewrite (executor_on _ _ _ _ H). simpl.
    destruct (rollup_watch w _); by repeat constructor.
  - rewrite (executor_off _ _ _ _ H). by apply oneShot_events.
Qed.

(** Every call to the engine is made on the entries the normaliser built
    from the input. *)
Lemma buildBody_calls input :
  input ≠ InputArray [] →
  ∃ inputObj,
    normalizer w opts input (if truthy (mjs opts) then ".mjs" else ".js")
      = ([], Normal (Some (normalizedExtOf opts input, inputObj))) ∧
    Forall (λ e, ∃ ext,
              engineCallWith (rollupOptionsOf w opts inputObj)
                (watchOutput opts) (writeOptions opts ext) e)
      (buildBody w input opts).1.
Proof.
  intros Hne. destruct (preamble_proceeds w opts input Hne) as (io & Hn & Hrun).
  exists io. split; [exact Hn |].
  rewrite buildBody_cases, Hrun.
  pose proof (resolver_events w opts
    (λ e, ∃ ext, engineCallWith (rollupOptionsOf w opts io)
                   (watchOutput opts) (writeOptions opts ext) e)
    (normalizedExtOf opts input)) as Hres.
  destruct (resolver w opts (normalizedExtOf opts input))
    as [t' [ext' | e |]]; simpl in Hres.
  - rewrite (bind_Normal _ _ t' ext' eq_refl). simpl. rewrite app_nil_r.
    apply Forall_app. split; [apply Hres; intros; by exists ".js" |].
    eapply Forall_impl; [apply executor_calls |]. intros e He. by exists ext'.
  - simpl. apply Hres; intros; by exists ".js".
  - simpl. apply Hres; intros; by exists ".js".
Qed.

End EngineCalls.

Lemma engineCallWith_input (base : RollupOptions) (wa wr : OutputOptions)
    (Q : gmap string string → Prop) (e : Event) :
  Q (ro_input base) → engineCallWith base wa wr e → engineInputIs Q e.
Proof. intros HQ. destruct e; simpl; try done; intros ->; exact HQ. Qed.

(** * The statements of the specification *)




(** C2, as stated, fails: with format ['cjs'] and [mjs: true] the files
    are not named with [.js]. *)
Lemma cjs_with_mjs_flag_writes_mjs :
  ¬ Forall (writesUse ".js")
      (trace (build (scenario None None []) (InputArray ["src/main.js"])
                (withMjs true (setFormat cjs plainOptions)))).
Proof.
  intros H.
  eapply (Forall_forall (writesUse ".js")) in H;
    [| apply elem_of_cons; right; apply elem_of_cons; left; reflexivity].
  destruct H as [H _]. discriminate H.
Qed.

(** C2, amended.  For a call with a format other than ['esm'] that gets
    past the normaliser, the resolved extension follows [options.mjs]
    alone, [.mjs] when it is truthy and [.js] otherwise; every
    [build.write] names entry and chunk files with it, and the package
    boundary is not inspected, whatever its manifest and whatever the
    inputs are called. *)
Theorem non_esm_extension_follows_mjs_flag (w : World) (input : BuildInput)
    (opts : BuildOptions) (f : ModuleFormat) :
  format opts = Some f →
  f ≠ esm →
  input ≠ InputArray [] →
  let ext := if truthy (mjs opts) then ".mjs" else ".js" in
  (∃ inputObj,
     preamble w input (defaultFormat opts) =
       ([], Normal (Some (ext, inputObj)))) ∧
  Forall (writesUse ext) (trace (build w input opts)) ∧
  Forall notInspection (trace (build w input opts)).
Proof.
  intros Hf Hne Hin. simpl.
  assert (defaultFormat opts = opts) as ->
    by (unfold defaultFormat; by rewrite Hf).
  assert (isEsm opts = false) as Hesm.
  { unfold isEsm. rewrite Hf. apply bool_decide_eq_false. congruence. }
  assert (normalizedExtOf opts input = if truthy (mjs opts) then ".mjs" else ".js")
    as Hext by (unfold normalizedExtOf; by rewrite Hesm).
  rewrite <- Hext. apply buildBody_without_inspection; [done |].
  unfold inspectsWith. by rewrite Hesm.
Qed.

Lemma non_esm_extension_follows_mjs_flag_witness :
  Forall (writesUse ".mjs")
    (trace (build (scenario (Some "/proj") None []) (InputArray ["src/main.js"])
              (withMjs true (setFormat cjs plainOptions)))) ∧
  Forall (writesUse ".js")
    (trace (build (scenario (Some "/proj") None []) (InputArray ["src/main.mjs"])
              (setFormat cjs plainOptions))).
Proof.
  split.
  - exact (proj1 (proj2 (non_esm_extension_follows_mjs_flag
      (scenario (Some "/proj") None []) (InputArray ["src/main.js"])
      (withMjs true (setFormat cjs plainOptions)) cjs
      eq_refl ltac:(discriminate) ltac:(discriminate)))).
  - exact (proj1 (proj2 (non_esm_extension_follows_mjs_flag
      (scenario (Some "/proj") None []) (InputArray ["src/main.mjs"])
      (setFormat cjs plainOptions) cjs
      eq_refl ltac:(discriminate) ltac:(discriminate)))).
Defined.

(** Whatever the world, the input and the options, the options given to
    [rollup.watch] have an [output] without [entryFileNames] and
    [chunkFileNames]. *)
Lemma watcher_options_never_named (w : World) (input : BuildInput)
    (opts : BuildOptions) :
  Forall watchUnnamed (trace (build w input opts)).
Proof. simpl. by apply buildBody_events. Qed.

(** C3 fails on the code.  In a directory whose manifest has no
    ["type": "module"], [build] resolves [.mjs] and says so in its warning;
    the one-shot call then writes with [[name].mjs] and [chunk-[hash].mjs],
    but the watch call hands the watcher an [output] with no file naming
    at all, so the resolved extension does not reach the watcher. *)
Theorem watch_mode_drops_resolved_extension :
  let w := scenario (Some "/proj") None [] in
  let input := InputArray ["src/main.js"] in
  BuildWrite (writeOptions (defaultFormat plainOptions) ".mjs")
    ∈ trace (build w input plainOptions) ∧
  ∃ ro o,
    trace (build w input (withWatch plainOptions)) =
      [ GetPackageBoundarySync "/proj/dist/"; ReadPackageConfigSync "/proj";
        Warn (boundaryWarning w "/proj"); RollupWatch ro; WatcherOn "event" ] ∧
    ro_output ro = Some o ∧
    oo_entryFileNames o = None ∧ oo_chunkFileNames o = None.
Proof.
  split.
  - do 4 (apply elem_of_cons; right). apply elem_of_cons; left. reflexivity.
  - do 2 eexists. split; [reflexivity |]. split; [reflexivity |]. by split.
Qed.

(** C4, as stated, fails: [c/foo0.js] is the first input whose base name
    is [foo0], and it shares that base name with [d/foo0.js], yet the name
    [foo0] has already been generated for [b/foo.js] and stays with it. *)
Lemma generated_name_displaces_later_base_name :
  let w := scenario None None [] in
  let modules := ["a/foo.js"; "b/foo.js"; "c/foo0.js"; "d/foo0.js"] in
  ∃ inputObj,
    normalizer w plainOptions (InputArray modules) ".js" =
      ([], Normal (Some (".js", inputObj))) ∧
    inputObj !! "foo0" = Some "b/foo.js" ∧
    inputObj !! "foo00" = Some "c/foo0.js" ∧
    ¬ firstKeepsBareName w modules inputObj.
Proof.
  eexists. split; [vm_compute; reflexivity |].
  split; [reflexivity |]. split; [reflexivity |].
  intros H. specialize (H 2%nat "c/foo0.js" eq_refl).
  assert (∀ (j : nat) module', (j < 2)%nat →
            ["a/foo.js"; "b/foo.js"; "c/foo0.js"; "d/foo0.js"] !! j = Some module' →
            candidateName (scenario None None []) module' ≠
            candidateName (scenario None None []) "c/foo0.js") as Hearlier.
  { intros [| [| j]] module' Hj Hm; [| | lia];
      injection Hm as <-; vm_compute; discriminate. }
  specialize (H Hearlier). vm_compute in H. discriminate H.
Qed.

(** C4, amended.  For every non-empty list of inputs the normaliser ends
    and builds a map with exactly one entry per input, under pairwise
    distinct names.  Scanning in the supplied order, each input is entered
    under its candidate base name or under that candidate followed by the
    first of 0, 1, 2, ... that is not taken; an input whose candidate is
    not a property name inherited by the object keeps the bare candidate
    whenever no earlier input has been given that name, so the first
    input does. *)
Theorem input_names_distinct_in_order (w : World) (opts : BuildOptions)
    (ext : string) (modules : list string) :
  modules ≠ [] →
  ∃ ext' inputObj names,
    normalizer w opts (InputArray modules) ext =
      ([], Normal (Some (ext', inputObj))) ∧
    length names = length modules ∧
    NoDup names ∧
    inputObj = list_to_map (zip names modules) ∧
    size inputObj = length modules ∧
    ∀ (k : nat) name module,
      names !! k = Some name → modules !! k = Some module →
      inputObj !! name = Some module ∧
      (name = candidateName w module ∨
       ∃ i : N, name = candidateName w module +:+ pretty i ∧
         ∀ j : N, (j < i)%N →
           candidateName w module +:+ pretty j ∈ take k names) ∧
      (candidateName w module ∉ objectPrototypeKeys →
       candidateName w module ∉ take k names →
       name = candidateName w module).
Proof.
  intros Hne. destruct modules as [| module rest]; [done |].
  destruct (normalizer_array w opts module rest ext) as (inputObj & Hfor & Hn).
  destruct (forOf_names w opts _ _ _ Hfor)
    as (names & Hlen & Hnd & _ & Hmap & Hidx).
  simpl in Hmap. rewrite (right_id_L ∅ (∪)) in Hmap.
  assert ((zip names (module :: rest)).*1 = names) as Hfst
    by (apply fst_zip; lia).
  eexists _, inputObj, names. split; [exact Hn |].
  split; [done |]. split; [done |]. split; [done |].
  split.
  { rewrite Hmap, map_size_list_to_map by (by rewrite Hfst).
    by rewrite length_zip, Hlen, Nat.min_id. }
  intros k name module' Hname Hmod.
  destruct (Hidx k name module' Hname Hmod) as [Hshape Hbare]. split.
  { rewrite Hmap. apply elem_of_list_to_map_1; [by rewrite Hfst |].
    apply list_elem_of_lookup. exists k. by apply lookup_zip_Some. }
  split.
  - destruct Hshape as [-> | (i & -> & Hmin)]; [by left | right].
    exists i. split; [done |]. intros j Hj.
    destruct (Hmin j Hj) as [Hin | Hin]; [| done].
    simpl in Hin. rewrite js_in_empty in Hin. apply bool_decide_eq_true in Hin.
    by apply suffixed_not_inherited in Hin.
  - intros Hproto. apply Hbare. simpl. rewrite js_in_empty.
    by apply bool_decide_eq_false.
Qed.

Lemma input_names_distinct_in_order_witness :
  ∃ ext' inputObj (names : list string),
    normalizer (scenario None None []) plainOptions
      (InputArray ["a/foo.js"; "b/foo.js"]) ".js" =
      ([], Normal (Some (ext', inputObj))) ∧
    length names = 2%nat ∧ NoDup names ∧ size inputObj = 2%nat.
Proof.
  destruct (input_names_distinct_in_order (scenario None None []) plainOptions
              ".js" ["a/foo.js"; "b/foo.js"] ltac:(discriminate))
    as (ext' & inputObj & names & Hn & Hlen & Hnd & _ & Hsize & _).
  exists ext', inputObj, names. repeat split; assumption.
Defined.

(** The example of C4: [a/foo.js] and [b/foo.js] are entered as [foo] and
    [foo0]. *)
Example foo_then_foo0 :
  normalizer (scenario None None []) plainOptions
    (InputArray ["a/foo.js"; "b/foo.js"]) ".js" =
  ([], Normal (Some (".js", {[ "foo" := "a/foo.js"; "foo0" := "b/foo.js" ]}))).
Proof. vm_compute. reflexivity. Qed.

(** The inherited names are visible to the loop too: the sole input
    [lib/toString.js] is not entered under [toString]. *)
Example inherited_name_is_suffixed :
  normalizer (scenario None None []) plainOptions
    (InputArray ["lib/toString.js"]) ".js" =
  ([], Normal (Some (".js", {[ "toString0" := "lib/toString.js" ]}))).
Proof. vm_compute. reflexivity. Qed.

(** C5.  For an empty list of inputs, [build] prints the warning
    "No inputs provided to build." and returns: that warning is its only
    effect (the engine is not called and nothing is written or removed),
    and the call completes normally. *)
Theorem empty_input_warns_and_returns (w : World) (opts : BuildOptions) :
  trace (build w (InputArray []) opts) = [Warn "No inputs provided to build."] ∧
  completion (build w (InputArray []) opts) = Normal tt.
Proof. split; reflexivity. Qed.

(** C6 fails on the code.  With format ['esm'], no [mjs] key and a list
    input of which one path ends in [.mjs], [build] resolves [.mjs] for
    the whole build without inspecting the package boundary, and the
    one-shot call writes with [[name].mjs] and [chunk-[hash].mjs]; but the
    watch call hands the watcher an [output] with no file naming at all,
    so there the extension is applied to no entry and no chunk file name.
    This is the omission of lines 106-113 that C3 is about. *)
Theorem watch_mode_drops_extension_inferred_from_input :
  let w := scenario (Some "/proj") (Some "module") [] in
  let input := InputArray ["src/a.js"; "src/b.mjs"] in
  (∃ inputObj,
     preamble w input (defaultFormat (withWatch plainOptions)) =
       ([], Normal (Some (".mjs", inputObj)))) ∧
  BuildWrite (writeOptions (defaultFormat plainOptions) ".mjs")
    ∈ trace (build w input plainOptions) ∧
  ∃ ro o,
    trace (build w input (withWatch plainOptions)) =
      [RollupWatch ro; WatcherOn "event"] ∧
    ro_output ro = Some o ∧
    oo_entryFileNames o = None ∧ oo_chunkFileNames o = None.
Proof.
  split; [eexists; vm_compute; reflexivity |]. split.
  - apply elem_of_cons; right. apply elem_of_cons; left. reflexivity.
  - do 2 eexists. split; [reflexivity |]. split; [reflexivity |]. by split.
Qed.

(** C7, as stated, fails: a call with no [format] leaves ['esm'] in the
    caller's options object. *)
Lemma build_writes_default_format :
  format (opts_after (build (scenario None None [])
                        (InputArray ["src/main.js"]) plainOptions))
  ≠ format plainOptions.
Proof. vm_compute. discriminate. Qed.

(** C7, amended.  [build] leaves every field of the options other than
    [format] as it was; [format] is left as it was when supplied and is set
    to ['esm'] on the caller's object when absent. *)
Theorem options_after_build (w : World) (input : BuildInput)
    (opts : BuildOptions) :
  let after := opts_after (build w input opts) in
  format after = Some (default esm (format opts)) ∧
  log after = log opts ∧ projectPath after = projectPath opts ∧
  removeDir after = removeDir opts ∧ env after = env opts ∧
  sourcemap after = sourcemap opts ∧ mjs after = mjs opts ∧
  out after = out opts ∧ external after = external opts ∧
  globals after = globals opts ∧ banner after = banner opts ∧
  showGraph after = showGraph opts ∧ watch after = watch opts ∧
  target after = target opts ∧ inlineDeps after = inlineDeps opts.
Proof.
  simpl. unfold defaultFormat. destruct (format opts) eqn:E; simpl.
  - rewrite E. repeat split.
  - repeat split.
Qed.

(** The header printed for a chunk does not depend on the chunk's own
    name: chunks that agree on imports and modules give the same lines. *)
Lemma graphLoop_ignores_chunk_name (w : World) (output output' : list OutputChunk) :
  Forall2 (λ c c', imports c = imports c' ∧ modules c = modules c')
    output output' →
  graphLoop w output = graphLoop w output'.
Proof.
  induction 1 as [| c c' l l' [Hi Hm] _ IH]; [done |].
  simpl. by rewrite Hi, Hm, IH.
Qed.

(** C8 fails on the code.  With [showGraph] and [log] set and one output
    chunk named [main], the one-shot call prints the success line and the
    empty line of line 147, then reads the unbound identifier [name]: the
    promise is rejected with a [ReferenceError] and no header with the
    chunk's name, no module line and no closing blank line is printed. *)
Theorem graph_summary_reads_unbound_name :
  let r := build (scenario None None [mainChunk]) (InputArray ["src/main.js"])
             (withShowGraph plainOptions) in
  completion r = Throw (ReferenceError "name") ∧
  ∃ ro, trace r =
    [ GetPackageBoundarySync "/proj/dist/"; RollupRollup ro;
      BuildWrite
        (writeOptions (defaultFormat (withShowGraph plainOptions)) ".js");
      Ok "Built into dist/"; ConsoleLog EmptyString ].
Proof. split; [reflexivity |]. eexists. reflexivity. Qed.






(** * Further properties of [build] *)

(** ** The extension *)

Lemma normalizedExtOf_cases (opts : BuildOptions) (input : BuildInput) :
  normalizedExtOf opts input = ".js" ∨ normalizedExtOf opts input = ".mjs".
Proof.
  unfold normalizedExtOf.
  destruct (isEsm opts && mjsAbsent opts && hasMjsPath input); [by right |].
  destruct (truthy (mjs opts)); [by right | by left].
Qed.

Lemma resolver_result (w : World) (opts : BuildOptions) (ext ext' : string)
    (t : list Event) :
  resolver w opts ext = (t, Normal ext') → ext' = ext ∨ ext' = ".mjs".
Proof.
  unfold resolver.
  destruct (isEsm opts && mjsAbsent opts && negb (String.eqb ext ".mjs"));
    [| intros [= _ <-]; by left].
  destruct (path_resolve w (out opts)) as [outdir | e |]; [| done | done].
  unfold lift. rewrite (bind_Normal _ _ [] outdir eq_refl). simpl.
  unfold call.
  destruct (getPackageBoundarySync w (outdir +:+ "/")) as [boundary | e |];
    [| done | done].
  rewrite (bind_Normal _ _ [_] boundary eq_refl). simpl.
  destruct (truthyString boundary); [| intros [= _ <-]; by left].
  destruct (readPackageConfigSync w (toStr boundary)) as [pjson | e |];
    [| done | done].
  rewrite (bind_Normal _ _ [_] pjson eq_refl). simpl.
  destruct (bool_decide (type pjson ≠ Some "module")).
  - intros [= _ <-]. by right.
  - intros [= _ <-]. by left.
Qed.

(** X1.  Whatever the format, the inputs and the manifest, every
    [build.write] names entry and chunk files with [.js] or with [.mjs]:
    no other extension is ever resolved. *)
Theorem extension_is_js_or_mjs (w : World) (input : BuildInput)
    (opts : BuildOptions) :
  Forall (λ e, writesUse ".js" e ∨ writesUse ".mjs" e)
    (trace (build w input opts)).
Proof.
  simpl. set (opts' := defaultFormat opts).
  assert (∀ ext, Forall (writesUse ext) (buildBody w input opts').1 →
            ext = ".js" ∨ ext = ".mjs" →
            Forall (λ e, writesUse ".js" e ∨ writesUse ".mjs" e)
              (buildBody w input opts').1) as Hlift.
  { intros ext Hall [-> | ->];
      (eapply Forall_impl; [exact Hall |]); intros e He; [by left | by right]. }
  rewrite buildBody_cases in *.
  assert (∀ ext, Forall (writesUse ext) (preamble w input opts').1) as Hpre
    by (intros ext; by apply preamble_events).
  destruct (preamble w input opts') as [t [[[ext io] |] | e |]] eqn:E;
    simpl in *;
    try (eapply Forall_impl; [exact (Hpre ".js") | by left]).
  assert (input ≠ InputArray []) as Hne.
  { intros ->. by rewrite preamble_empty in E. }
  destruct (preamble_proceeds w opts' input Hne) as (io' & _ & Hrun).
  rewrite E in Hrun.
  destruct (resolver w opts' (normalizedExtOf opts' input))
    as [t' [ext' | e |]] eqn:R; try done.
  rewrite (bind_Normal _ _ t' ext' eq_refl) in Hrun. simpl in Hrun.
  injection Hrun as _ Hext _. subst ext'.
  apply (Hlift ext).
  - apply Forall_app. split; [apply Hpre | apply executor_writes].
  - destruct (resolver_result _ _ _ _ _ R) as [-> | ->]; [| by right].
    apply normalizedExtOf_cases.
Qed.

(** X2.  When the options carry an [mjs] key, with either value and for any
    format, a call that gets past the normaliser takes the extension from
    that key alone ([.mjs] if truthy, [.js] if not): nothing is inferred
    from input names ending in [.mjs], the package boundary is not
    inspected and no warning is printed. *)
Theorem explicit_mjs_key_decides_extension (w : World) (input : BuildInput)
    (opts : BuildOptions) (b : bool) :
  mjs opts = Some b →
  input ≠ InputArray [] →
  let ext := if b then ".mjs" else ".js" in
  (∃ inputObj,
     preamble w input (defaultFormat opts) =
       ([], Normal (Some (ext, inputObj)))) ∧
  Forall (writesUse ext) (trace (build w input opts)) ∧
  Forall notInspection (trace (build w input opts)) ∧
  ∀ s, Warn s ∉ trace (build w input opts).
Proof.
  intros Hmjs Hne. simpl. set (opts' := defaultFormat opts).
  assert (mjs opts' = Some b) as Hmjs'
    by (unfold opts'; by rewrite defaultFormat_mjs).
  assert (normalizedExtOf opts' input = if b then ".mjs" else ".js") as Hext.
  { unfold normalizedExtOf, mjsAbsent. rewrite Hmjs'. simpl.
    by rewrite andb_false_r. }
  assert (inspectsWith opts' (normalizedExtOf opts' input) = false) as Hskip.
  { unfold inspectsWith, mjsAbsent. rewrite Hmjs'. by rewrite andb_false_r. }
  destruct (buildBody_without_inspection w opts' input Hne Hskip)
    as ([io Hpre] & Hw & Hi).
  rewrite Hext in *.
  split; [by exists io |]. split; [done |]. split; [done |].
  intros s Hin. rewrite (buildBody_trace _ _ _ _ _ _ Hpre) in Hin.
  simpl in Hin. by apply executor_no_warning in Hin.
Qed.

Lemma explicit_mjs_key_decides_extension_witness :
  let r := build (scenario (Some "/proj") None [])
             (InputArray ["src/main.mjs"]) (withMjs false plainOptions) in
  Forall (writesUse ".js") (trace r) ∧ Forall notInspection (trace r) ∧
  BuildWrite (writeOptions (defaultFormat (withMjs false plainOptions)) ".js")
    ∈ trace r.
Proof.
  destruct (explicit_mjs_key_decides_extension
              (scenario (Some "/proj") None [])
              (InputArray ["src/main.mjs"]) (withMjs false plainOptions) false
              eq_refl ltac:(discriminate)) as (_ & Hw & Hi & _).
  split; [exact Hw |]. split; [exact Hi |].
  apply elem_of_cons; right. apply elem_of_cons; left. reflexivity.
Defined.

(** X3.  The defaulting of [format] on the caller's object does not change
    what a later call does: calling [build] again with the options object
    as the first call left it gives the same effects, the same completion
    and leaves the object as it is. *)
Theorem build_again_with_same_options (w : World) (input : BuildInput)
    (opts : BuildOptions) :
  build w input (opts_after (build w input opts)) = build w input opts.
Proof.
  unfold build. simpl.
  assert (defaultFormat (defaultFormat opts) = defaultFormat opts) as ->; [| done].
  unfold defaultFormat at 1. by rewrite defaultFormat_format.
Qed.

(** ** The steps of the one-shot path *)

Section OneShot.
Variable w : World.
Variable opts : BuildOptions.

Lemma oneShot_steps ro ext :
  oneShot w opts ro ext =
    (b ← call (RollupRollup ro) (rollup_rollup w ro);
     dirStep w opts;;
     output ← call (BuildWrite (writeOptions opts ext))
                   (write b (writeOptions opts ext));
     report w opts output).
Proof. reflexivity. Qed.

Lemma dirStep_run :
  dirStep w opts =
    if truthy (removeDir opts) then
      match rimraf_sync w (out opts) with
      | Normal _ =>
          ([RimrafSync (out opts); MkdirpSync (out opts)],
           mkdirp_sync w (out opts))
      | Throw e => ([RimrafSync (out opts)], Throw e)
      | Pending => ([RimrafSync (out opts)], Pending)
      end
    else ([], Normal tt).
Proof.
  unfold dirStep. destruct (truthy (removeDir opts)); [| done].
  unfold call, mbind, Eff_bind. by destruct (rimraf_sync w (out opts)).
Qed.

Lemma report_events (P : Event → Prop) output :
  (log opts = true → ∀ s, P (Ok s)) →
  (log opts = true → truthy (showGraph opts) = true → ∀ s, P (ConsoleLog s)) →
  Forall P (report w opts output).1.
Proof.
  intros Hok Hlog. unfold report. apply bind_Forall.
  - destruct (log opts); [| constructor]. repeat constructor. by apply Hok.
  - intros _ _. destruct (truthy (showGraph opts)), (log opts); simpl;
      try constructor.
    apply bind_Forall; [repeat constructor; by apply Hlog |].
    intros _ _. apply graphLoop_events. by apply Hlog.
Qed.

(** The whole one-shot path, step by step. *)
Lemma oneShot_run ro ext :
  oneShot w opts ro ext =
    let wo := writeOptions opts ext in
    match rollup_rollup w ro with
    | Normal b =>
        match (dirStep w opts).2 with
        | Normal _ =>
            match write b wo with
            | Normal output =>
                ((RollupRollup ro :: (dirStep w opts).1 ++
                  BuildWrite wo :: (report w opts output).1)%list,
                 (report w opts output).2)
            | Throw e =>
                ((RollupRollup ro :: (dirStep w opts).1 ++ [BuildWrite wo])%list,
                 Throw e)
            | Pending =>
                ((RollupRollup ro :: (dirStep w opts).1 ++ [BuildWrite wo])%list,
                 Pending)
            end
        | Throw e => (RollupRollup ro :: (dirStep w opts).1, Throw e)
        | Pending => (RollupRollup ro :: (dirStep w opts).1, Pending)
        end
    | Throw e => ([RollupRollup ro], Throw e)
    | Pending => ([RollupRollup ro], Pending)
    end.
Proof.
  rewrite oneShot_steps. unfold call. cbv zeta.
  destruct (rollup_rollup w ro) as [b | e |]; [| done | done].
  rewrite (bind_Normal _ _ [RollupRollup ro] b eq_refl). simpl.
  destruct (dirStep w opts) as [td [[] | e |]]; simpl; [| done | done].
  rewrite (bind_Normal _ _ td tt eq_refl). simpl.
  destruct (write b (writeOptions opts ext)) as [output | e |]; simpl;
    [| done | done].
  rewrite (bind_Normal _ _ [BuildWrite _] output eq_refl). simpl.
  by destruct (report w opts output).
Qed.

(** A call reaches [rollup.rollup] only in one-shot mode and after lines
    50-89 have gone through; what follows is the one-shot path. *)
Lemma rollup_call_inv input ro :
  RollupRollup ro ∈ (buildBody w input opts).1 →
  ∃ t ext inputObj,
    preamble w input opts = (t, Normal (Some (ext, inputObj))) ∧
    truthy (watch opts) = false ∧
    ro = rollupOptionsOf w opts inputObj ∧
    buildBody w input opts =
      ((t ++ (oneShot w opts ro ext).1)%list, (oneShot w opts ro ext).2).
Proof.
  intros Hin. rewrite buildBody_cases in *.
  assert (Forall (λ e, e ≠ RollupRollup ro) (preamble w input opts).1) as Hpre
    by (by apply preamble_events).
  rewrite Forall_forall in Hpre.
  destruct (preamble w input opts) as [t [[[ext io] |] | e |]]; simpl in *;
    try (by apply Hpre in Hin).
  apply elem_of_app in Hin as [Hin | Hin]; [by apply Hpre in Hin |].
  destruct (truthy (watch opts)) eqn:Hw.
  { rewrite (executor_on _ _ _ _ Hw) in Hin. simpl in Hin.
    destruct (rollup_watch w _); simpl in Hin;
      repeat (apply elem_of_cons in Hin as [Hin | Hin]; [done |]);
      by apply elem_of_nil in Hin. }
  rewrite (executor_off _ _ _ _ Hw) in *.
  assert (ro = rollupOptionsOf w opts io) as ->.
  { assert (Forall (λ e, ∀ ro', e = RollupRollup ro' →
                       ro' = rollupOptionsOf w opts io)
              (oneShot w opts (rollupOptionsOf w opts io) ext).1) as Hone
      by (apply oneShot_events; intros; congruence).
    rewrite Forall_forall in Hone. by apply (Hone _ Hin). }
  by exists t, ext, io.
Qed.

End OneShot.

(** ** What reaches the engine *)

(** X4.  An input given as a name -> path record reaches the engine as it
    is: every call to [rollup.rollup] or [rollup.watch] has exactly that
    record as [input], whatever the names and paths in it. *)
Theorem record_input_reaches_engine_unchanged (w : World)
    (entries : gmap string string) (opts : BuildOptions) :
  Forall (engineInputIs (λ m, m = entries))
    (trace (build w (InputRecord entries) opts)).
Proof.
  simpl. destruct (buildBody_calls w (defaultFormat opts) (InputRecord entries))
    as (io & Hn & Hall); [done |].
  simpl in Hn. injection Hn as _ ->.
  eapply Forall_impl; [exact Hall |]. intros e [ext He].
  eapply engineCallWith_input; [| exact He]. done.
Qed.

(** X5.  For a list of inputs, the entries given to the engine are the
    inputs and nothing else: every call to [rollup.rollup] or
    [rollup.watch] has an [input] with as many entries as there are paths,
    and a path is the value of some entry exactly when it is in the list. *)
Theorem list_input_reaches_engine_entry_by_entry (w : World)
    (modules : list string) (opts : BuildOptions) :
  Forall (engineInputIs (λ m,
            size m = length modules ∧
            ∀ module, module ∈ modules ↔ ∃ name, m !! name = Some module))
    (trace (build w (InputArray modules) opts)).
Proof.
  simpl. destruct modules as [| module rest]; [by repeat constructor |].
  set (opts' := defaultFormat opts).
  destruct (buildBody_calls w opts' (InputArray (module :: rest)))
    as (io & Hn & Hall); [done |].
  destruct (normalizer_array w opts' module rest
              (if truthy (mjs opts') then ".mjs" else ".js"))
    as (io' & Hfor & Hn').
  rewrite Hn' in Hn. injection Hn as <-.
  destruct (forOf_names w opts' _ _ _ Hfor)
    as (names & Hlen & Hnd & _ & Hmap & _).
  simpl in Hmap. rewrite (right_id_L ∅ (∪)) in Hmap.
  assert ((zip names (module :: rest)).*1 = names) as Hfst
    by (apply fst_zip; lia).
  eapply Forall_impl; [exact Hall |]. intros e [ext He].
  eapply engineCallWith_input; [| exact He]. simpl. split.
  - rewrite Hmap, map_size_list_to_map by (by rewrite Hfst).
    by rewrite length_zip, Hlen, Nat.min_id.
  - intros x. split.
    + intros Hx. apply list_elem_of_lookup in Hx as [k Hk].
      destruct (lookup_lt_is_Some_2 names k) as [name Hname].
      { rewrite Hlen. by eapply lookup_lt_Some. }
      exists name. rewrite Hmap.
      apply elem_of_list_to_map_1; [by rewrite Hfst |].
      apply list_elem_of_lookup. exists k. by apply lookup_zip_Some.
    + intros [name Hname]. rewrite Hmap in Hname.
      apply elem_of_list_to_map_2 in Hname. by apply elem_of_zip_r in Hname.
Qed.

(** X6.  The engine is never left without a format: every [build.write]
    and every [output] given to the watcher carries the format of the
    options, and ['esm'] when the options have none. *)
Theorem engine_is_always_given_a_format (w : World) (input : BuildInput)
    (opts : BuildOptions) :
  Forall (formatGiven (default esm (format opts))) (trace (build w input opts)).
Proof.
  simpl. set (opts' := defaultFormat opts).
  assert (input = InputArray [] ∨ input ≠ InputArray []) as [-> | Hne]
    by (destruct input as [[| ??] | ?]; [by left | by right | by right]).
  { by repeat constructor. }
  destruct (buildBody_calls w opts' input Hne) as (io & _ & Hall).
  eapply Forall_impl; [exact Hall |]. intros e [ext He].
  destruct e; simpl in *; try done.
  - subst o. eexists. split; [reflexivity |]. apply defaultFormat_format.
  - subst o. apply defaultFormat_format.
Qed.

(** X7.  Every call to the engine takes its directory, externals and
    source-map flag from the options, and comes with exactly one plugin,
    configured with the same externals, the environment, the
    inline-dependencies flag as a boolean, and as project path the
    [projectPath] of the options, or the working directory when that is
    absent or the empty string. *)
Theorem engine_options_come_from_the_options (w : World) (input : BuildInput)
    (opts : BuildOptions) :
  Forall (engineOptionsFrom w opts) (trace (build w input opts)).
Proof.
  simpl. set (opts' := defaultFormat opts).
  assert (input = InputArray [] ∨ input ≠ InputArray []) as [-> | Hne]
    by (destruct input as [[| ??] | ?]; [by left | by right | by right]).
  { by repeat constructor. }
  destruct (buildBody_calls w opts' input Hne) as (io & _ & Hall).
  assert (engineOptionsFrom w opts (RollupRollup (rollupOptionsOf w opts' io)))
    as Hbase.
  { unfold opts', defaultFormat. simpl.
    destruct (format opts); simpl; (split; [done |]); (split; [done |]);
      (split; [done |]); eexists; (split; [reflexivity |]); simpl;
      (split; [done |]); (split; [done |]); (split; [done |]);
      destruct (projectPath opts) as [p |]; simpl; try done;
      by destruct (String.eqb p EmptyString). }
  eapply Forall_impl; [exact Hall |]. intros e [ext He].
  destruct e; simpl in *; try done; by subst o.
Qed.

(** ** Failures and the order of the one-shot steps *)

Lemma defaultFormat_removeDir (opts : BuildOptions) :
  removeDir (defaultFormat opts) = removeDir opts.
Proof. unfold defaultFormat. by destruct (format opts). Qed.

Lemma defaultFormat_log (opts : BuildOptions) :
  log (defaultFormat opts) = log opts.
Proof. unfold defaultFormat. by destruct (format opts). Qed.

Lemma defaultFormat_showGraph (opts : BuildOptions) :
  showGraph (defaultFormat opts) = showGraph opts.
Proof. unfold defaultFormat. by destruct (format opts). Qed.

Section OneShotOrder.
Variable w : World.
Variable opts : BuildOptions.

Lemma oneShot_Forall (P : Event → Prop) ro ext :
  P (RollupRollup ro) → Forall P (dirStep w opts).1 →
  P (BuildWrite (writeOptions opts ext)) →
  (∀ output, Forall P (report w opts output).1) →
  Forall P (oneShot w opts ro ext).1.
Proof.
  intros Hr Hd Hw Hrep. rewrite oneShot_run. cbv zeta.
  destruct (rollup_rollup w ro) as [b | e |]; [| by repeat constructor..].
  destruct (dirStep w opts).2 as [[] | e |]; [| by constructor..].
  destruct (write b _) as [output | e |]; simpl; constructor; try done;
    apply Forall_app; split; try done; by repeat constructor.
Qed.

Lemma dirStep_on_request :
  truthy (watch opts) = false →
  Forall (dirTouchedOnRequest opts) (dirStep w opts).1.
Proof.
  intros Hw. rewrite dirStep_run.
  destruct (truthy (removeDir opts)) eqn:E; [| constructor].
  destruct (rimraf_sync w (out opts)); by repeat constructor.
Qed.

Lemma report_on_request output :
  Forall (printedOnRequest w opts) (report w opts output).1.
Proof.
  unfold report. apply bind_Forall.
  - destruct (log opts) eqn:E; by repeat constructor.
  - intros _ _.
    destruct (truthy (showGraph opts)) eqn:Hs, (log opts) eqn:Hl; simpl;
      try constructor.
    apply bind_Forall; [by repeat constructor |].
    intros _ _. apply graphLoop_events. intros s. simpl. by rewrite Hl.
Qed.

End OneShotOrder.

(** X8.  If [rollup.rollup] fails, the call is rejected with the engine's
    error and nothing after it has happened: the output directory is
    neither removed nor created, nothing is written and no line is
    printed. *)
Theorem failed_bundle_touches_nothing (w : World) (input : BuildInput)
    (opts : BuildOptions) (ro : RollupOptions) (e : JSError) :
  RollupRollup ro ∈ trace (build w input opts) →
  rollup_rollup w ro = Throw e →
  completion (build w input opts) = Throw e ∧
  Forall notAfterBundle (trace (build w input opts)).
Proof.
  simpl. intros Hin Hfail.
  destruct (rollup_call_inv _ _ _ _ Hin)
    as (t & ext & io & Hpre & _ & _ & Hrun).
  pose proof (preamble_events w (defaultFormat opts) notAfterBundle input)
    as Ht.
  rewrite Hpre in Ht. rewrite Hrun, oneShot_run, Hfail. simpl.
  split; [done |]. apply Forall_app. split; [by apply Ht |].
  by repeat constructor.
Qed.

Lemma failed_bundle_touches_nothing_witness :
  let w := withEngine (λ _, Throw (ForeignError "Could not resolve entry"))
             (scenario None None []) in
  let r := build w (InputArray ["src/main.js"]) (withRemoveDir plainOptions) in
  completion r = Throw (ForeignError "Could not resolve entry") ∧
  Forall notAfterBundle (trace r).
Proof.
  eapply (failed_bundle_touches_nothing
            (withEngine (λ _, Throw (ForeignError "Could not resolve entry"))
               (scenario None None []))
            (InputArray ["src/main.js"]) (withRemoveDir plainOptions)).
  - apply elem_of_cons; right. apply elem_of_cons; left. reflexivity.
  - reflexivity.
Defined.

(** X9.  With [removeDir] set, if the engine has built and the removal of
    the output directory fails, the call is rejected with that error: the
    directory is not created again, nothing is written and no line is
    printed. *)
Theorem failed_removal_stops_the_build (w : World) (input : BuildInput)
    (opts : BuildOptions) (ro : RollupOptions) (b : RollupBuild)
    (e : JSError) :
  RollupRollup ro ∈ trace (build w input opts) →
  rollup_rollup w ro = Normal b →
  truthy (removeDir opts) = true →
  rimraf_sync w (out opts) = Throw e →
  completion (build w input opts) = Throw e ∧
  Forall notAfterRemoval (trace (build w input opts)).
Proof.
  simpl. intros Hin Hbuilt Hrm Hfail.
  destruct (rollup_call_inv _ _ _ _ Hin)
    as (t & ext & io & Hpre & _ & _ & Hrun).
  pose proof (preamble_events w (defaultFormat opts) notAfterRemoval input)
    as Ht.
  rewrite Hpre in Ht. rewrite Hrun, oneShot_run, Hbuilt, dirStep_run.
  rewrite defaultFormat_removeDir, defaultFormat_out, Hrm, Hfail. simpl.
  split; [done |]. apply Forall_app. split; [by apply Ht |].
  by repeat constructor.
Qed.

Lemma failed_removal_stops_the_build_witness :
  let w := withRimraf (λ _, Throw (ForeignError "EBUSY"))
             (scenario None None []) in
  let r := build w (InputArray ["src/main.js"]) (withRemoveDir plainOptions) in
  completion r = Throw (ForeignError "EBUSY") ∧
  Forall notAfterRemoval (trace r).
Proof.
  eapply (failed_removal_stops_the_build
            (withRimraf (λ _, Throw (ForeignError "EBUSY"))
               (scenario None None []))
            (InputArray ["src/main.js"]) (withRemoveDir plainOptions)).
  - apply elem_of_cons; right. apply elem_of_cons; left. reflexivity.
  - reflexivity.
  - reflexivity.
  - reflexivity.
Defined.

(** X10.  If the engine has built and the directory handling went through
    but [build.write] fails, the call is rejected with that error and no
    success line and no graph line is printed, even with [log] and
    [showGraph] set. *)
Theorem failed_write_reports_no_success (w : World) (input : BuildInput)
    (opts : BuildOptions) (ro : RollupOptions) (b : RollupBuild)
    (e : JSError) :
  RollupRollup ro ∈ trace (build w input opts) →
  rollup_rollup w ro = Normal b →
  (truthy (removeDir opts) = true →
   rimraf_sync w (out opts) = Normal tt ∧
   mkdirp_sync w (out opts) = Normal tt) →
  (∀ o, write b o = Throw e) →
  completion (build w input opts) = Throw e ∧
  Forall printsNothing (trace (build w input opts)).
Proof.
  simpl. intros Hin Hbuilt Hdir Hfail.
  destruct (rollup_call_inv _ _ _ _ Hin)
    as (t & ext & io & Hpre & _ & _ & Hrun).
  pose proof (preamble_events w (defaultFormat opts) printsNothing input)
    as Ht.
  rewrite Hpre in Ht. rewrite Hrun, oneShot_run. cbv zeta.
  rewrite Hbuilt, dirStep_run.
  rewrite defaultFormat_removeDir, defaultFormat_out, Hfail.
  destruct (truthy (removeDir opts)).
  - destruct (Hdir eq_refl) as [-> ->]. simpl.
    split; [done |]. apply Forall_app. split; [by apply Ht |].
    by repeat constructor.
  - simpl. split; [done |]. apply Forall_app. split; [by apply Ht |].
    by repeat constructor.
Qed.

Lemma failed_write_reports_no_success_witness :
  let w := withEngine
             (λ _, Normal {| write := λ _, Throw (ForeignError "EACCES") |})
             (scenario None None [mainChunk]) in
  let r := build w (InputArray ["src/main.js"]) (withShowGraph plainOptions) in
  completion r = Throw (ForeignError "EACCES") ∧
  Forall printsNothing (trace r).
Proof.
  eapply (failed_write_reports_no_success
            (withEngine
               (λ _, Normal {| write := λ _, Throw (ForeignError "EACCES") |})
               (scenario None None [mainChunk]))
            (InputArray ["src/main.js"]) (withShowGraph plainOptions)).
  - apply elem_of_cons; right. apply elem_of_cons; left. reflexivity.
  - reflexivity.
  - discriminate.
  - reflexivity.
Defined.

(** X11.  With [removeDir] set, a one-shot call whose engine builds and
    whose directory handling goes through removes the output directory
    only after the engine has built in memory, creates it again, and only
    then writes: these four calls follow one another, and nothing of the
    one-shot path comes before them. *)
Theorem directory_is_replaced_between_bundle_and_write (w : World)
    (input : BuildInput) (opts : BuildOptions) (ro : RollupOptions)
    (b : RollupBuild) :
  RollupRollup ro ∈ trace (build w input opts) →
  rollup_rollup w ro = Normal b →
  truthy (removeDir opts) = true →
  rimraf_sync w (out opts) = Normal tt →
  mkdirp_sync w (out opts) = Normal tt →
  ∃ before wo after,
    trace (build w input opts) =
      (before ++
       [RollupRollup ro; RimrafSync (out opts); MkdirpSync (out opts);
        BuildWrite wo] ++ after)%list ∧
    Forall notOneShot before.
Proof.
  simpl. intros Hin Hbuilt Hrm Hrimraf Hmkdirp.
  destruct (rollup_call_inv _ _ _ _ Hin)
    as (t & ext & io & Hpre & _ & _ & Hrun).
  pose proof (preamble_events w (defaultFormat opts) notOneShot input) as Ht.
  rewrite Hpre in Ht. rewrite Hrun, oneShot_run, Hbuilt, dirStep_run.
  rewrite defaultFormat_removeDir, defaultFormat_out, Hrm, Hrimraf, Hmkdirp.
  simpl. exists t, (writeOptions (defaultFormat opts) ext).
  destruct (write b _) as [output | e |]; simpl; eexists;
    (split; [reflexivity | by apply Ht]).
Qed.

Lemma directory_is_replaced_between_bundle_and_write_witness :
  ∃ before ro wo after,
    trace (build (scenario None None []) (InputArray ["src/main.js"])
             (withRemoveDir plainOptions)) =
      (before ++
       [RollupRollup ro; RimrafSync (Some "dist"); MkdirpSync (Some "dist");
        BuildWrite wo] ++ after)%list ∧
    Forall notOneShot before.
Proof.
  destruct (directory_is_replaced_between_bundle_and_write
              (scenario None None []) (InputArray ["src/main.js"])
              (withRemoveDir plainOptions)
              (rollupOptionsOf (scenario None None [])
                 (defaultFormat (withRemoveDir plainOptions))
                 {[ "main" := "src/main.js" ]})
              {| write := λ _, Normal [] |})
    as (before & wo & after & Htrace & Hbefore).
  - apply elem_of_cons; right. apply elem_of_cons; left. reflexivity.
  - reflexivity.
  - reflexivity.
  - reflexivity.
  - reflexivity.
  - eexists before, _, wo, after. split; [exact Htrace | exact Hbefore].
Defined.

(** X12.  The output directory is removed or created only on request: any
    [rimraf.sync] or [mkdirp.sync] of a call is on the output directory of
    the options, in one-shot mode, with [removeDir] set. *)
Theorem directory_is_touched_only_on_request (w : World) (input : BuildInput)
    (opts : BuildOptions) :
  Forall (dirTouchedOnRequest opts) (trace (build w input opts)).
Proof.
  simpl. set (opts' := defaultFormat opts).
  assert (Forall (dirTouchedOnRequest opts') (buildBody w input opts').1) as H.
  { rewrite buildBody_cases.
    pose proof (preamble_events w opts' (dirTouchedOnRequest opts') input) as Ht.
    destruct (preamble w input opts') as [t [[[ext io] |] | e |]]; simpl in *;
      try (by apply Ht).
    apply Forall_app. split; [by apply Ht |].
    destruct (truthy (watch opts')) eqn:Hw.
    - rewrite (executor_on _ _ _ _ Hw). simpl.
      destruct (rollup_watch w _); by repeat constructor.
    - rewrite (executor_off _ _ _ _ Hw).
      apply oneShot_Forall; try done; [by apply dirStep_on_request |].
      intros output. by apply report_events. }
  eapply Forall_impl; [exact H |]. intros e. unfold opts'.
  destruct e; simpl; try done;
    by rewrite defaultFormat_removeDir, defaultFormat_watch, defaultFormat_out.
Qed.

(** X13.  Lines are printed only on request: the only success line of a
    call is "Built into <out>/", printed with [log] set; a line of the
    graph summary is printed only with both [log] and [showGraph] set; and
    the call itself prints no "Rebuilding..." line. *)
Theorem lines_are_printed_only_on_request (w : World) (input : BuildInput)
    (opts : BuildOptions) :
  Forall (printedOnRequest w opts) (trace (build w input opts)).
Proof.
  simpl. set (opts' := defaultFormat opts).
  assert (Forall (printedOnRequest w opts') (buildBody w input opts').1) as H.
  { rewrite buildBody_cases.
    pose proof (preamble_events w opts' (printedOnRequest w opts') input) as Ht.
    destruct (preamble w input opts') as [t [[[ext io] |] | e |]]; simpl in *;
      try (by apply Ht).
    apply Forall_app. split; [by apply Ht |].
    destruct (truthy (watch opts')) eqn:Hw.
    - rewrite (executor_on _ _ _ _ Hw). simpl.
      destruct (rollup_watch w _); by repeat constructor.
    - rewrite (executor_off _ _ _ _ Hw).
      apply oneShot_Forall; try done.
      + rewrite dirStep_run. destruct (truthy (removeDir opts')); [| constructor].
        destruct (rimraf_sync w _); by repeat constructor.
      + apply report_on_request. }
  eapply Forall_impl; [exact H |]. intros e. unfold opts'.
  destruct e; simpl; try done;
    by rewrite defaultFormat_log, ?defaultFormat_showGraph, ?defaultFormat_out.
Qed.

(** ** The watcher's listener *)

Lemma handleEvents_after_first (w : World) (opts : BuildOptions)
    (codes : list string) :
  handleEvents w opts false codes = flat_map (rebuildLine w opts) codes.
Proof.
  induction codes as [| code rest IH]; [done |].
  simpl. rewrite <- IH. unfold onEvent, rebuildLine.
  destruct (String.eqb code "BUNDLE_START"); [done |].
  by destruct (String.eqb code "BUNDLE_END").
Qed.

(** X14.  Whatever the watcher's first event is, the listener prints
    nothing for it; from the second event on, each rebuild start prints
    "Rebuilding...", each rebuild end prints the success line naming the
    output directory, and any other event prints nothing. *)
Theorem listener_skips_first_event_only (w : World) (opts : BuildOptions)
    (first : string) (rest : list string) :
  handleEvents w opts true (first :: rest) =
  flat_map (rebuildLine w opts) rest.
Proof. simpl. apply handleEvents_after_first. Qed.

(** ** The candidate entry name *)

Lemma lastIndexOf_from_last (c : ascii) (stem tail : string) (i found : Z) :
  JSString.lacks c tail →
  JSString.lastIndexOf_from (stem +:+ String c tail) c i found =
  i + JSString.size stem.
Proof.
  intros Htail. revert i found.
  induction stem as [| a stem IH]; intros i found; simpl.
  - rewrite (lastIndexOf_lacks _ _ _ _ Htail), Ascii.eqb_refl.
    unfold JSString.size. simpl. lia.
  - rewrite IH. unfold JSString.size. simpl. lia.
Qed.

Lemma substring_stem (stem tail : string) :
  String.substring 0 (String.length stem) (stem +:+ tail) = stem.
Proof.
  induction stem as [| a stem IH]; simpl.
  - by destruct tail.
  - by rewrite IH.
Qed.

Lemma length_append (s t : string) :
  String.length (s +:+ t) = (String.length s + String.length t)%nat.
Proof. induction s as [| a s IH]; simpl; [done | by rewrite IH]. Qed.

Lemma substr_stem (stem tail : string) :
  JSString.substr (stem +:+ tail) 0 (JSString.size stem) = stem.
Proof.
  unfold JSString.substr, JSString.size. cbv zeta.
  rewrite length_append.
  change (0 <? 0) with false. cbv iota.
  replace (Z.min 0 (Z.of_nat (String.length stem + String.length tail)))
    with 0 by lia.
  replace (Z.min (Z.max (Z.of_nat (String.length stem)) 0)
             (Z.of_nat (String.length stem + String.length tail) - 0))
    with (Z.of_nat (String.length stem)) by lia.
  destruct (Z.of_nat (String.length stem) <=? 0) eqn:E.
  - apply Z.leb_le in E. destruct stem; [done | simpl in E; lia].
  - rewrite Nat2Z.id. apply substring_stem.
Qed.

(** X15.  The candidate entry name of a list input is its base file name
    up to the last dot, however many dots come before: a base name
    [stem.ext], where [ext] has no dot, gives [stem].  So [app.min.js]
    gives [app.min], and a dot file such as [.babelrc] gives the empty
    name. *)
Theorem candidate_name_is_stem_before_last_dot (w : World)
    (module stem ext : string) :
  path_basename w module = stem +:+ "." +:+ ext →
  JSString.lacks "." ext →
  candidateName w module = stem.
Proof.
  intros Hbase Hext. unfold candidateName, JSString.lastIndexOf.
  rewrite Hbase. change (stem +:+ "." +:+ ext) with (stem +:+ String "." ext).
  rewrite (lastIndexOf_from_last _ _ _ _ _ Hext). simpl.
  apply substr_stem.
Qed.

Lemma candidate_name_is_stem_before_last_dot_witness :
  candidateName (scenario None None []) "src/app.min.js" = "app.min" ∧
  candidateName (scenario None None []) "conf/.babelrc" = EmptyString.
Proof.
  split.
  - apply (candidate_name_is_stem_before_last_dot (scenario None None [])
             "src/app.min.js" "app.min" "js"); [reflexivity |].
    simpl. repeat split; discriminate.
  - apply (candidate_name_is_stem_before_last_dot (scenario None None [])
             "conf/.babelrc" EmptyString "babelrc"); [reflexivity |].
    simpl. repeat split; discriminate.
Defined.

(** ** The warning at the package boundary *)

Lemma prefix_append (s t : string) : String.prefix s (s +:+ t) = true.
Proof.
  induction s as [| a s IH]; simpl; [by destruct t |].
  destruct (ascii_dec a a); [exact IH | done].
Qed.

(** X16.  The boundary warning reads "Output package scope at <path> does
    not have a "type": "module" boundary, so outputting mjs.", where
    <path> is the path of [package.json] relative to the working
    directory, left as it is when it starts with [..] and the platform's
    separator and prefixed with [.] and the separator otherwise; so the
    path shown always starts with [.] or [..] followed by the
    separator. *)
Theorem boundary_warning_path_is_dotted (w : World) (boundary : string) :
  let relative :=
    path_relative w (cwd w) (boundary +:+ "/package.json") in
  let shown :=
    if String.prefix (".." +:+ path_sep w) relative then relative
    else "." +:+ path_sep w +:+ relative in
  let q := String "034"%char EmptyString in
  boundaryWarning w boundary =
    "Output package scope at " +:+ highlight w shown +:+
    " does not have a " +:+
    bold w (q +:+ "type" +:+ q +:+ ": " +:+ q +:+ "module" +:+ q) +:+
    " boundary, so outputting mjs." ∧
  (String.prefix (".." +:+ path_sep w) relative = true → shown = relative) ∧
  (String.prefix (".." +:+ path_sep w) relative = false →
   shown = "." +:+ path_sep w +:+ relative) ∧
  (String.prefix (".." +:+ path_sep w) shown = true ∨
   String.prefix ("." +:+ path_sep w) shown = true).
Proof.
  cbv zeta. split; [reflexivity |].
  destruct (String.prefix (".." +:+ path_sep w)
              (path_relative w (cwd w) (boundary +:+ "/package.json"))) eqn:E.
  - split; [done |]. split; [done |]. by left.
  - split; [done |]. split; [done |]. right.
    change ("." +:+ path_sep w +:+ ?x) with (("." +:+ path_sep w) +:+ x).
    apply (prefix_append ("." +:+ path_sep w)).
Qed.

(** ** The order of the inputs *)

Lemma existsb_Permutation {A} (f : A → bool) (l l' : list A) :
  l ≡ₚ l' → existsb f l = existsb f l'.
Proof.
  induction 1 as [| x l l' _ IH | x y l | l l' l'' _ IH1 _ IH2]; simpl.
  - done.
  - by rewrite IH.
  - by destruct (f x), (f y).
  - by rewrite IH1.
Qed.

Lemma forOf_size (w : World) (opts : BuildOptions) (input : list string)
    (ext : string) (st : string * gmap string string) :
  forOf w opts input (ext, ∅) = Some st → size st.2 = length input.
Proof.
  intros H.
  destruct (forOf_names w opts _ _ _ H) as (names & Hlen & Hnd & _ & Hmap & _).
  simpl in Hmap. rewrite (right_id_L ∅ (∪)) in Hmap.
  rewrite Hmap, map_size_list_to_map by (rewrite fst_zip by lia; done).
  by rewrite length_zip, Hlen, Nat.min_id.
Qed.

(** X17.  The order in which the inputs are listed decides their names,
    but not the extension: the loop over a reordered list ends with the
    same extension and the same number of entries. *)
Theorem extension_ignores_input_order (w : World) (opts : BuildOptions)
    (ext : string) (modules modules' : list string) :
  modules ≡ₚ modules' →
  ∃ ext' inputObj inputObj',
    forOf w opts modules (ext, ∅) = Some (ext', inputObj) ∧
    forOf w opts modules' (ext, ∅) = Some (ext', inputObj') ∧
    size inputObj = size inputObj'.
Proof.
  intros Hperm.
  destruct (forOf_total w opts modules (ext, ∅)) as [[e io] H].
  destruct (forOf_total w opts modules' (ext, ∅)) as [[e' io'] H'].
  pose proof (forOf_ext _ _ _ _ _ H) as He.
  pose proof (forOf_ext _ _ _ _ _ H') as He'.
  simpl in He, He'.
  assert (e' = e) as ->.
  { rewrite He, He'. unfold impliesMjsIn.
    by rewrite (existsb_Permutation _ _ _ Hperm). }
  exists e, io, io'. split; [done |]. split; [done |].
  pose proof (forOf_size _ _ _ _ _ H) as Hs.
  pose proof (forOf_size _ _ _ _ _ H') as Hs'.
  simpl in Hs, Hs'. rewrite Hs, Hs'. by apply Permutation_length.
Qed.

Lemma extension_ignores_input_order_witness :
  ∃ ext' inputObj inputObj',
    forOf (scenario None None []) plainOptions
      ["lib/util.js"; "src/main.mjs"] (".js", ∅) = Some (ext', inputObj) ∧
    forOf (scenario None None []) plainOptions
      ["src/main.mjs"; "lib/util.js"] (".js", ∅) = Some (ext', inputObj') ∧
    size inputObj = size inputObj'.
Proof.
  apply (extension_ignores_input_order (scenario None None []) plainOptions
           ".js" ["lib/util.js"; "src/main.mjs"]
           ["src/main.mjs"; "lib/util.js"]).
  apply Permutation_swap.
Defined.

(** ** The inspection of the package boundary *)

Lemma resolver_reads (w : World) (opts : BuildOptions) (ext : string) :
  Forall (readAtReportedBoundary w opts)
    (resolver w (defaultFormat opts) ext).1.
Proof.
  unfold resolver.
  destruct (isEsm (defaultFormat opts) && mjsAbsent (defaultFormat opts)
            && negb (String.eqb ext ".mjs")) eqn:Hcond; [| constructor].
  apply andb_true_iff in Hcond as [Hcond _].
  apply andb_true_iff in Hcond as [Hesm Habsent].
  rewrite isEsm_defaultFormat in Hesm. apply bool_decide_eq_true in Hesm.
  unfold mjsAbsent in Habsent. rewrite defaultFormat_mjs in Habsent.
  rewrite defaultFormat_out.
  destruct (path_resolve w (out opts)) as [outdir | e |] eqn:Hres;
    [| constructor..].
  unfold lift. rewrite (bind_Normal _ _ [] outdir eq_refl). simpl.
  unfold call.
  destruct (getPackageBoundarySync w (outdir +:+ "/")) as [boundary | e |]
    eqn:Hb; [| by repeat constructor..].
  rewrite (bind_Normal _ _ [_] boundary eq_refl). simpl.
  constructor; [done |].
  destruct boundary as [b |]; simpl; [| constructor].
  destruct (String.eqb b EmptyString) eqn:Hempty; simpl; [constructor |].
  apply String.eqb_neq in Hempty.
  assert (readAtReportedBoundary w opts (ReadPackageConfigSync b)) as Hread.
  { simpl. split; [done |]. split; [by destruct (mjs opts) |].
    split; [done |]. by exists outdir. }
  apply bind_Forall; [constructor; [exact Hread | constructor] |].
  intros pjson _.
  destruct (bool_decide (type pjson ≠ Some "module")); [| constructor].
  apply bind_Forall; [by repeat constructor | intros; constructor].
Qed.

(** X18.  A manifest is read only where the inspection leads: any
    [readPackageConfigSync] of a call is made for format ['esm'] without
    an [mjs] key, on a non-empty boundary that [getPackageBoundarySync]
    reported for the resolved output directory followed by a slash. *)
Theorem manifest_is_read_only_at_reported_boundary (w : World)
    (input : BuildInput) (opts : BuildOptions) :
  Forall (readAtReportedBoundary w opts) (trace (build w input opts)).
Proof.
  simpl. set (opts' := defaultFormat opts).
  assert (input = InputArray [] ∨ input ≠ InputArray []) as [-> | Hne]
    by (destruct input as [[| ??] | ?]; [by left | by right | by right]).
  { by repeat constructor. }
  rewrite buildBody_cases.
  destruct (preamble_proceeds w opts' input Hne) as (io & _ & ->).
  pose proof (resolver_reads w opts (normalizedExtOf opts' input)) as Hres.
  fold opts' in Hres.
  destruct (resolver w opts' (normalizedExtOf opts' input))
    as [t [ext | e |]]; simpl in Hres; try done.
  rewrite (bind_Normal _ _ t ext eq_refl). simpl. rewrite app_nil_r.
  apply Forall_app. split; [done |].
  eapply Forall_impl; [apply executor_no_inspection |].
  by intros [].
Qed.

(** ** The graph summary where [name] is bound *)









(** ** Starting the watcher, and ending the one-shot path *)

(** A call reaches [rollup.watch] only with [watch] set; what follows is
    the end of the watch branch. *)
Lemma watch_call_inv (w : World) (opts : BuildOptions) (input : BuildInput)
    (ro : RollupOptions) :
  RollupWatch ro ∈ (buildBody w input opts).1 →
  ∃ t,
    Forall (λ e, notOneShot e ∧ e ≠ WatcherOn "event") t ∧
    buildBody w input opts =
      match rollup_watch w ro with
      | Normal _ => ((t ++ [RollupWatch ro; WatcherOn "event"])%list, Pending)
      | Throw e => ((t ++ [RollupWatch ro])%list, Throw e)
      | Pending => ((t ++ [RollupWatch ro])%list, Pending)
      end.
Proof.
  intros Hin. rewrite buildBody_cases in *.
  assert (Forall (λ e, (notOneShot e ∧ e ≠ WatcherOn "event") ∧
                       e ≠ RollupWatch ro) (preamble w input opts).1) as Hpre
    by (by apply preamble_events).
  destruct (preamble w input opts) as [t [[[ext io] |] | e |]]; simpl in *.
  2-4: (rewrite Forall_forall in Hpre; by destruct (Hpre _ Hin)).
  assert (RollupWatch ro ∉ t) as Hnot.
  { intros Ht. rewrite Forall_forall in Hpre. by destruct (Hpre _ Ht). }
  apply elem_of_app in Hin as [Hin | Hin]; [done |].
  exists t. split; [eapply Forall_impl; [exact Hpre | by intros ? [? _]] |].
  destruct (truthy (watch opts)) eqn:Hw.
  - rewrite (executor_on _ _ _ _ Hw) in *.
    assert (ro = setOutput (watchOutput opts) (rollupOptionsOf w opts io)) as ->.
    { destruct (rollup_watch w (setOutput _ _)); simpl in Hin;
        apply elem_of_cons in Hin as [Hin | Hin]; try congruence;
        try (by apply elem_of_nil in Hin);
        apply elem_of_cons in Hin as [Hin | Hin]; try done;
        by apply elem_of_nil in Hin. }
    by destruct (rollup_watch w _).
  - exfalso. rewrite (executor_off _ _ _ _ Hw) in Hin.
    assert (Forall (λ e, e ≠ RollupWatch ro)
              (oneShot w opts (rollupOptionsOf w opts io) ext).1) as Hone
      by (by apply oneShot_events).
    rewrite Forall_forall in Hone. by apply (Hone _ Hin).
Qed.

(** X20.  If [rollup.watch] fails, the call is rejected with the engine's
    error: the listener is not installed, and nothing of the one-shot path
    is run either. *)
Theorem failed_watcher_start_rejects (w : World) (input : BuildInput)
    (opts : BuildOptions) (ro : RollupOptions) (e : JSError) :
  RollupWatch ro ∈ trace (build w input opts) →
  rollup_watch w ro = Throw e →
  completion (build w input opts) = Throw e ∧
  (WatcherOn "event" ∉ trace (build w input opts)) ∧
  Forall notOneShot (trace (build w input opts)).
Proof.
  simpl. intros Hin Hfail.
  destruct (watch_call_inv _ _ _ _ Hin) as (t & Ht & Hrun).
  rewrite Hrun, Hfail. simpl. split; [done |]. split.
  - intros Hon. apply elem_of_app in Hon as [Hon | Hon].
    + rewrite Forall_forall in Ht. by destruct (Ht _ Hon).
    + apply list_elem_of_singleton in Hon. discriminate Hon.
  - apply Forall_app. split; [| by repeat constructor].
    eapply Forall_impl; [exact Ht | by intros ? [? _]].
Qed.

Lemma failed_watcher_start_rejects_witness :
  let w := {| cwd := "/proj"; path_sep := "/";
              path_basename := posix_basename;
              path_resolve := λ _, Normal "/proj/dist";
              path_relative := relativeBelow;
              getPackageBoundarySync := λ _, Normal None;
              readPackageConfigSync := λ _, Normal {| type := None |};
              rollup_watch := λ _, Throw (ForeignError "Invalid options");
              rollup_rollup := λ _, Normal {| write := λ _, Normal [] |};
              rimraf_sync := λ _, Normal tt; mkdirp_sync := λ _, Normal tt;
              global_name := None; bold := λ s, s; highlight := λ s, s;
              replaceWinSep := λ s, s |} in
  let r := build w (InputArray ["src/main.js"]) (withWatch plainOptions) in
  completion r = Throw (ForeignError "Invalid options") ∧
  (WatcherOn "event" ∉ trace r) ∧ Forall notOneShot (trace r).
Proof.
  eapply failed_watcher_start_rejects.
  - apply elem_of_cons; right. apply elem_of_cons; left. reflexivity.
  - reflexivity.
Defined.

(** X21.  When the inspection is called for (format ['esm'], no [mjs] key,
    no list path ending in [.mjs]) and [path.resolve] fails on the output
    directory of the options, the call is rejected with that error before
    anything else is done: no collaborator is asked, the engine is not
    called and nothing is printed. *)
Theorem unresolvable_out_rejects_at_once (w : World) (input : BuildInput)
    (opts : BuildOptions) (e : JSError) :
  default esm (format opts) = esm →
  mjs opts = None →
  hasMjsPath input = false →
  input ≠ InputArray [] →
  path_resolve w (out opts) = Throw e →
  trace (build w input opts) = [] ∧
  completion (build w input opts) = Throw e.
Proof.
  intros Hfmt Hmjs Hpaths Hne Hres. simpl.
  set (opts' := defaultFormat opts).
  assert (normalizedExtOf opts' input = ".js") as Hext.
  { unfold normalizedExtOf, opts'. rewrite Hpaths, andb_false_r.
    by rewrite defaultFormat_mjs, Hmjs. }
  assert (resolver w opts' ".js" = ([], Throw e)) as Hrun.
  { unfold resolver, mjsAbsent, opts'.
    rewrite isEsm_defaultFormat, defaultFormat_mjs, defaultFormat_out, Hmjs.
    unfold effectiveFormat. rewrite bool_decide_eq_true_2 by done.
    simpl. by rewrite Hres. }
  rewrite buildBody_cases.
  destruct (preamble_proceeds w opts' input Hne) as (io & _ & ->).
  by rewrite Hext, Hrun.
Qed.

Lemma unresolvable_out_rejects_at_once_witness :
  let opts :=
    {| log := true; projectPath := None; removeDir := None; env := None;
       sourcemap := None; mjs := None; out := None; format := None;
       external := None; globals := None; banner := None; showGraph := None;
       watch := None; target := None; inlineDeps := None |} in
  let r := build (scenario None None []) (InputArray ["src/main.js"]) opts in
  trace r = [] ∧ completion r = Throw (ForeignError "ERR_INVALID_ARG_TYPE").
Proof.
  apply unresolvable_out_rejects_at_once; try reflexivity. discriminate.
Defined.

(** X22.  A one-shot call without [showGraph] whose engine builds, whose
    directory handling goes through and whose write succeeds completes
    normally; its last effects are the write and then, with [log] set, the
    one success line, otherwise nothing. *)
Theorem successful_one_shot_completes (w : World) (input : BuildInput)
    (opts : BuildOptions) (ro : RollupOptions) (b : RollupBuild)
    (output : list OutputChunk) :
  RollupRollup ro ∈ trace (build w input opts) →
  rollup_rollup w ro = Normal b →
  (truthy (removeDir opts) = true →
   rimraf_sync w (out opts) = Normal tt ∧
   mkdirp_sync w (out opts) = Normal tt) →
  (∀ o, write b o = Normal output) →
  truthy (showGraph opts) = false →
  completion (build w input opts) = Normal tt ∧
  ∃ before wo,
    trace (build w input opts) =
      (before ++ BuildWrite wo ::
       (if log opts
        then [Ok ("Built into " +:+ highlight w (toStr (out opts) +:+ "/"))]
        else []))%list.
Proof.
  simpl. intros Hin Hbuilt Hdir Hwrite Hgraph.
  destruct (rollup_call_inv _ _ _ _ Hin)
    as (t & ext & io & _ & _ & _ & Hrun).
  rewrite Hrun, oneShot_run. cbv zeta.
  rewrite Hbuilt, dirStep_run, Hwrite.
  rewrite defaultFormat_removeDir, defaultFormat_out.
  assert (report w (defaultFormat opts) output =
            (if log opts
             then [Ok ("Built into " +:+ highlight w (toStr (out opts) +:+ "/"))]
             else [], Normal tt)) as ->.
  { unfold report.
    rewrite defaultFormat_log, defaultFormat_showGraph, defaultFormat_out, Hgraph.
    by destruct (log opts). }
  destruct (truthy (removeDir opts)).
  - destruct (Hdir eq_refl) as [-> ->]. simpl. split; [done |].
    exists (t ++ [RollupRollup ro; RimrafSync (out opts); MkdirpSync (out opts)])%list,
      (writeOptions (defaultFormat opts) ext).
    by rewrite <- app_assoc.
  - simpl. split; [done |].
    exists (t ++ [RollupRollup ro])%list, (writeOptions (defaultFormat opts) ext).
    by rewrite <- app_assoc.
Qed.

Lemma successful_one_shot_completes_witness :
  let r := build (scenario None None [mainChunk]) (InputArray ["src/main.js"])
             (withRemoveDir plainOptions) in
  completion r = Normal tt ∧
  ∃ before wo, trace r = (before ++ [BuildWrite wo; Ok "Built into dist/"])%list.
Proof.
  eapply (successful_one_shot_completes (scenario None None [mainChunk])
            (InputArray ["src/main.js"]) (withRemoveDir plainOptions)
            _ {| write := λ _, Normal [mainChunk] |} [mainChunk]).
  - apply elem_of_cons; right. apply elem_of_cons; left. reflexivity.
  - reflexivity.
  - intros _. split; reflexivity.
  - reflexivity.
  - reflexivity.
Defined.

(** X23.  The names given to list inputs do not depend on the options or
    on the extension in force: the loop builds the same entries whatever
    the format and the [mjs] key are. *)
Theorem input_names_ignore_the_options (w : World) (opts opts' : BuildOptions)
    (ext ext' : string) (modules : list string) :
  ∃ e e' inputObj,
    forOf w opts modules (ext, ∅) = Some (e, inputObj) ∧
    forOf w opts' modules (ext', ∅) = Some (e', inputObj).
Proof.
  assert (∀ l st st', st.2 = st'.2 →
            ∃ e e' io, forOf w opts l st = Some (e, io) ∧
                       forOf w opts' l st' = Some (e', io)) as Hgen.
  { induction l as [| module rest IH]; intros st st' Heq; simpl.
    - destruct st as [e io], st' as [e' io']. simpl in Heq. subst io'.
      by exists e, e', io.
    - destruct (forBody_Some w opts st module) as (n & Hn & ->).
      destruct (forBody_Some w opts' st' module) as (n' & Hn' & ->).
      rewrite <- Heq, Hn in Hn'. injection Hn' as <-.
      unfold mbind, option_bind. apply IH. simpl. by rewrite Heq. }
  by apply Hgen.
Qed.

(** X24.  Where the global scope does not bind [name], as under Node, a
    one-shot call with [log] and [showGraph] set whose write returns at
    least one chunk is rejected with a [ReferenceError] after the files
    are written: its last effects are the write, the success line and one
    empty line, and no line of the summary follows. *)
Theorem graph_summary_rejects_after_writing (w : World) (input : BuildInput)
    (opts : BuildOptions) (ro : RollupOptions) (b : RollupBuild)
    (entry : OutputChunk) (rest : list OutputChunk) :
  RollupRollup ro ∈ trace (build w input opts) →
  rollup_rollup w ro = Normal b →
  (truthy (removeDir opts) = true →
   rimraf_sync w (out opts) = Normal tt ∧
   mkdirp_sync w (out opts) = Normal tt) →
  (∀ o, write b o = Normal (entry :: rest)) →
  log opts = true →
  truthy (showGraph opts) = true →
  global_name w = None →
  completion (build w input opts) = Throw (ReferenceError "name") ∧
  ∃ before wo,
    trace (build w input opts) =
      (before ++
       [ BuildWrite wo;
         Ok ("Built into " +:+ highlight w (toStr (out opts) +:+ "/"));
         ConsoleLog EmptyString ])%list.
Proof.
  simpl. intros Hin Hbuilt Hdir Hwrite Hlog Hgraph Hname.
  destruct (rollup_call_inv _ _ _ _ Hin)
    as (t & ext & io & _ & _ & _ & Hrun).
  rewrite Hrun, oneShot_run. cbv zeta.
  rewrite Hbuilt, dirStep_run, Hwrite.
  rewrite defaultFormat_removeDir, defaultFormat_out.
  assert (report w (defaultFormat opts) (entry :: rest) =
            ([Ok ("Built into " +:+ highlight w (toStr (out opts) +:+ "/"));
              ConsoleLog EmptyString],
             Throw (ReferenceError "name"))) as ->.
  { unfold report.
    rewrite defaultFormat_log, defaultFormat_showGraph, defaultFormat_out.
    rewrite Hlog, Hgraph. simpl. unfold lookupName. by rewrite Hname. }
  destruct (truthy (removeDir opts)).
  - destruct (Hdir eq_refl) as [-> ->]. simpl. split; [done |].
    exists (t ++ [RollupRollup ro; RimrafSync (out opts); MkdirpSync (out opts)])%list,
      (writeOptions (defaultFormat opts) ext).
    by rewrite <- app_assoc.
  - simpl. split; [done |].
    exists (t ++ [RollupRollup ro])%list, (writeOptions (defaultFormat opts) ext).
    by rewrite <- app_assoc.
Qed.

Lemma graph_summary_rejects_after_writing_witness :
  let r := build (scenario None None [mainChunk; mainChunk])
             (InputArray ["src/main.js"]) (withShowGraph plainOptions) in
  completion r = Throw (ReferenceError "name") ∧
  ∃ before wo,
    trace r =
      (before ++
       [BuildWrite wo; Ok "Built into dist/"; ConsoleLog EmptyString])%list.
Proof.
  eapply (graph_summary_rejects_after_writing
            (scenario None None [mainChunk; mainChunk])
            (InputArray ["src/main.js"]) (withShowGraph plainOptions)
            _ {| write := λ _, Normal [mainChunk; mainChunk] |}
            mainChunk [mainChunk]).
  - apply elem_of_cons; right. apply elem_of_cons; left. reflexivity.
  - reflexivity.
  - discriminate.
  - reflexivity.
  - reflexivity.
  - reflexivity.
  - reflexivity.
Defined.

(** X25.  For a call with format ['esm'] (given or defaulted) and no [mjs]
    key, if some path of a list-style input ends in [.mjs] then lines
    50-89 resolve [.mjs] for the whole build without calling any
    collaborator: every [build.write] of the call names entry and chunk
    files with it, whichever input matched, and the package boundary is
    not inspected. *)
Theorem mjs_input_makes_whole_build_mjs (w : World) (input : BuildInput)
    (opts : BuildOptions) :
  effectiveFormat opts = esm →
  mjs opts = None →
  hasMjsPath input = true →
  (∃ inputObj,
     preamble w input (defaultFormat opts) =
       ([], Normal (Some (".mjs", inputObj)))) ∧
  Forall (writesUse ".mjs") (trace (build w input opts)) ∧
  Forall notInspection (trace (build w input opts)).
Proof.
  intros Hfmt Hmjs Hpath. simpl.
  set (opts' := defaultFormat opts).
  assert (input ≠ InputArray []) as Hne by (by intros ->).
  assert (normalizedExtOf opts' input = ".mjs") as Hext.
  { unfold normalizedExtOf, mjsAbsent, opts'.
    rewrite isEsm_defaultFormat, defaultFormat_mjs, Hmjs, Hpath.
    by rewrite bool_decide_eq_true_2. }
  rewrite <- Hext. apply buildBody_without_inspection; [done |].
  rewrite Hext. unfold inspectsWith. by rewrite andb_false_r.
Qed.

Lemma mjs_input_makes_whole_build_mjs_witness :
  let r := build (scenario (Some "/proj") (Some "module") [])
             (InputArray ["src/a.js"; "src/b.mjs"; "src/c.js"]) plainOptions in
  (Forall (writesUse ".mjs") (trace r) ∧ Forall notInspection (trace r)) ∧
  BuildWrite (writeOptions (defaultFormat plainOptions) ".mjs") ∈ trace r.
Proof.
  split.
  - exact (proj2 (mjs_input_makes_whole_build_mjs
      (scenario (Some "/proj") (Some "module") [])
      (InputArray ["src/a.js"; "src/b.mjs"; "src/c.js"]) plainOptions
      eq_refl eq_refl eq_refl)).
  - apply elem_of_cons; right. apply elem_of_cons; left. reflexivity.
Defined.
